(** * Sox + faster-whisper streamer: a shallow embedding

    This development embeds [src/sox_realtime_stt_streamer.py] (class
    [SoxRealtimeSTTStreamer] and [main]) and states the properties of its
    capture / transcribe / filter / deliver loop.

    Conventions of the embedding:
    - a Python [str] is a list of Unicode code points ([pystr]); [len] is
      [length], [str.strip] is [strip];
    - the streamer object and the part of the file system it owns (its
      temporary directory) form one record [state], passed explicitly;
    - every call that leaves the process ([subprocess.run], [socket.connect],
      [socket.send], [time.time]) takes its outcome from an environment
      record, so that each function is a total, executable Rocq function of
      the outcomes it meets;
    - every effect that can be observed from outside is logged as an [event];
      a run is judged by its trace;
    - the messages of the program hold emoji, so the standard streams are
      taken to be those of a UTF-8 locale: [sys.stdout] encodes with the
      error handler [strict] (a [print] of a text that holds a lone
      surrogate raises [UnicodeEncodeError]), [sys.stderr] with
      [backslashreplace], and a pipe read with [text=True] decodes UTF-8
      and translates newlines; the streams are open and take whatever
      they can encode. *)

From Stdlib Require Import ZArith NArith QArith List Ascii String Bool Lia Sorted
  DecimalString.
From stdpp Require Import base gmap list.
Import ListNotations.

Local Open Scope Z_scope.
#[local] Set Warnings "-clear-no-such-hyp".

(** ** Python strings *)

Module PyStr.

(** A [str] value: its code points, in order. *)
Definition pystr := list N.

Definition of_string (s : string) : pystr :=
  map N_of_ascii (list_ascii_of_string s).

(** [str.isspace] on one code point (CPython's [_PyUnicode_IsWhitespace]). *)
Definition isspace (c : N) : bool :=
  ((9 <=? c) && (c <=? 13) || (28 <=? c) && (c <=? 32)
   || (c =? 133) || (c =? 160) || (c =? 5760)
   || (8192 <=? c) && (c <=? 8202)
   || (c =? 8232) || (c =? 8233) || (c =? 8239) || (c =? 8287)
   || (c =? 12288))%N.

Fixpoint lstrip (s : pystr) : pystr :=
  match s with
  | c :: s' => if isspace c then lstrip s' else s
  | [] => []
  end.

Definition rstrip (s : pystr) : pystr := rev (lstrip (rev s)).

(** [s.strip()] with no argument. *)
Definition strip (s : pystr) : pystr := rstrip (lstrip s).

(** Truth value of a [str]: non-empty. *)
Definition truthy (s : pystr) : bool :=
  match s with [] => false | _ :: _ => true end.

(** [len(s)] *)
Definition len (s : pystr) : Z := Z.of_nat (length s).

End PyStr.
Import PyStr.

(** ** SegmentFilter: the two gates of [record_and_process_audio] *)

(** Line 168: [if file_size > 8000]. *)
Definition isWorthTranscribing (file_size : Z) : bool := 8000 <? file_size.

(** Line 176: [if transcription and len(transcription.strip()) > 2]. *)
Definition isMeaningfulText (transcription : pystr) : bool :=
  truthy transcription && (2 <? len (strip transcription)).

(** ** Floats, [json.dumps] and the wire encoding *)

(** A Python [float] as the streamer uses it: the rational it denotes (for
    the subtraction and comparison of the heartbeat test) together with the
    text [float.__repr__] gives it (which is what [json.dumps] writes). *)
Record pyfloat := PyFloat { fval : Q; frepr : string }.

Module Json.

(** The values the two messages of the streamer hold. *)
Inductive value :=
| JStr (s : pystr)
| JFloat (x : pyfloat)
| JBool (b : bool).

(** A [dict] literal: its items in insertion order, which is the order in
    which [json.dumps] writes them. *)
Definition pydict := list (pystr * value).

Definition hex_digit (d : N) : N :=
  (if d <? 10 then 48 + d else 87 + d)%N.

(** ['{0:04x}'.format(n)] for [n < 0x10000]. *)
Definition hex4 (n : N) : pystr :=
  [hex_digit (N.land (N.shiftr n 12) 15); hex_digit (N.land (N.shiftr n 8) 15);
   hex_digit (N.land (N.shiftr n 4) 15); hex_digit (N.land n 15)]%N.

Definition backslash_u (n : N) : pystr := [92; 117]%N ++ hex4 n.

(** The replacement [json.encoder.py_encode_basestring_ascii] makes for one
    code point: the characters from space to tilde stand for themselves,
    apart from the quote and the backslash; the others are escaped. *)
Definition escape_char (c : N) : pystr :=
  (if c =? 34 then [92; 34]
   else if c =? 92 then [92; 92]
   else if c =? 10 then [92; 110]
   else if c =? 13 then [92; 114]
   else if c =? 9 then [92; 116]
   else if c =? 8 then [92; 98]
   else if c =? 12 then [92; 102]
   else if (32 <=? c) && (c <=? 126) then [c]
   else if c <? 65536 then backslash_u c
   else
     let n := c - 65536 in
     backslash_u (N.lor 55296 (N.land (N.shiftr n 10) 1023))
     ++ backslash_u (N.lor 56320 (N.land n 1023)))%N.

Definition encode_basestring_ascii (s : pystr) : pystr :=
  [34%N] ++ flat_map escape_char s ++ [34%N].

Definition dumps_value (v : value) : pystr :=
  match v with
  | JStr s => encode_basestring_ascii s
  | JFloat x => of_string (frepr x)
  | JBool true => of_string "true"
  | JBool false => of_string "false"
  end.

Definition dumps_item (kv : pystr * value) : pystr :=
  encode_basestring_ascii (fst kv) ++ of_string ": " ++ dumps_value (snd kv).

Fixpoint join_items (items : list pystr) : pystr :=
  match items with
  | [] => []
  | [x] => x
  | x :: rest => x ++ of_string ", " ++ join_items rest
  end.

(** [json.dumps(d)] with the default separators and [ensure_ascii]. *)
Definition dumps (d : pydict) : pystr :=
  of_string "{" ++ join_items (map dumps_item d) ++ of_string "}".

End Json.
Import Json.

(** [s.encode('utf-8')]: [None] stands for [UnicodeEncodeError] (a lone
    surrogate). Bytes are numbers below 256. *)
Definition utf8_char (c : N) : option (list N) :=
  (if c <? 128 then Some [c]
   else if c <? 2048 then
     Some [N.lor 192 (N.shiftr c 6); N.lor 128 (N.land c 63)]
   else if c <? 65536 then
     if (55296 <=? c) && (c <=? 57343) then None
     else Some [N.lor 224 (N.shiftr c 12);
                N.lor 128 (N.land (N.shiftr c 6) 63);
                N.lor 128 (N.land c 63)]
   else
     Some [N.lor 240 (N.shiftr c 18);
           N.lor 128 (N.land (N.shiftr c 12) 63);
           N.lor 128 (N.land (N.shiftr c 6) 63);
           N.lor 128 (N.land c 63)])%N.

Fixpoint encode_utf8 (s : pystr) : option (list N) :=
  match s with
  | [] => Some []
  | c :: s' =>
      match utf8_char c, encode_utf8 s' with
      | Some b, Some bs => Some (b ++ bs)
      | _, _ => None
      end
  end.

(** The dict built at lines 53-58. *)
Definition transcription_message (text : pystr) (now : pyfloat) (is_final : bool)
  : pydict :=
  [ (of_string "type", JStr (of_string "transcription"));
    (of_string "text", JStr text);
    (of_string "timestamp", JFloat now);
    (of_string "isFinal", JBool is_final) ].

(** The dict built at line 185. *)
Definition keepalive_message (current_time : pyfloat) : pydict :=
  [ (of_string "type", JStr (of_string "heartbeat"));
    (of_string "timestamp", JFloat current_time) ].

(** [(json.dumps(message) + '\n').encode('utf-8')] *)
Definition wire (message : pydict) : option (list N) :=
  encode_utf8 (dumps message ++ [10%N]).

Definition t_example : pyfloat :=
  PyFloat (3400000001 # 2) "1700000000.5".

(** A string literal between double quotes, as it appears in JSON text. *)
Definition quoted (s : string) : pystr := [34%N] ++ of_string s ++ [34%N].

(** ** The standard streams and the pipe of a child *)

Definition is_surrogate (c : N) : bool := ((55296 <=? c) && (c <=? 57343))%N.

(** Whether [print(s)] on [sys.stdout] returns: the UTF-8 codec takes every
    code point of a [str] but a surrogate, at which [strict] raises
    [UnicodeEncodeError] before anything of [s] is written. *)
Definition stdout_takes (s : pystr) : bool :=
  forallb (fun c => negb (is_surrogate c)) s.

(** What [sys.stderr] writes for [s]: [backslashreplace] writes a surrogate
    as its escape. *)
Definition backslashreplace (s : pystr) : pystr :=
  flat_map (fun c => if is_surrogate c then backslash_u c else [c]) s.

(** What the parent reads from a pipe opened with [text=True]:
    [subprocess] replaces [\r\n], then [\r], by [\n]. *)
Fixpoint translate_newlines (s : pystr) : pystr :=
  match s with
  | [] => []
  | c :: r =>
      if (c =? 13)%N then
        10%N :: match r with
                | d :: r' =>
                    if (d =? 10)%N then translate_newlines r'
                    else translate_newlines r
                | [] => []
                end
      else c :: translate_newlines r
  end.

(** [str(n)] for an index. *)
Definition decimal (n : N) : pystr :=
  of_string (NilZero.string_of_uint (N.to_uint n)).

(** The number of surrogates [s] starts with. *)
Fixpoint surrogate_run (s : pystr) : N :=
  match s with
  | c :: r => if is_surrogate c then (1 + surrogate_run r)%N else 0%N
  | [] => 0%N
  end.

(** The first surrogate of [s]: its index, counted from [pos], and the
    text from there on. *)
Fixpoint first_surrogate (pos : N) (s : pystr) : option (N * pystr) :=
  match s with
  | [] => None
  | c :: r =>
      if is_surrogate c then Some (pos, s) else first_surrogate (pos + 1)%N r
  end.

(** [str(e)] for the [UnicodeEncodeError] that the UTF-8 codec raises on
    [s]: it names the first run of surrogates. *)
Definition surrogates_not_allowed (s : pystr) : pystr :=
  match first_surrogate 0 s with
  | Some (start, c :: r) =>
      let stop := (start + surrogate_run r)%N in
      if (stop =? start)%N then
        of_string "'utf-8' codec can't encode character '" ++ backslash_u c
        ++ of_string "' in position " ++ decimal start
        ++ of_string ": surrogates not allowed"
      else
        of_string "'utf-8' codec can't encode characters in position "
        ++ decimal start ++ of_string "-" ++ decimal stop
        ++ of_string ": surrogates not allowed"
  | _ => []
  end.

(** ** The streamer and its world *)

(** A socket object. [fileno()] is [-1] exactly when it is [Closed]; only a
    [Connected] socket can carry data. *)
Inductive sock := Unconnected | Connected | Closed.

(** The fields of [SoxRealtimeSTTStreamer] that the control flow reads
    ([host] and [port] are constants of the run and are left out), and the
    temporary directory the object owns: [files !! n = Some size] when
    [audio_n.wav] exists in [temp_dir] with that size. *)
Record state := State {
  socket : option sock;
  running : bool;
  segment_counter : nat;
  last_heartbeat : pyfloat;
  temp_dir_exists : bool;
  files : gmap nat Z
}.

Definition set_socket (s : option sock) (st : state) : state :=
  State s (running st) (segment_counter st) (last_heartbeat st)
        (temp_dir_exists st) (files st).

Definition set_running (b : bool) (st : state) : state :=
  State (socket st) b (segment_counter st) (last_heartbeat st)
        (temp_dir_exists st) (files st).

Definition set_segment_counter (n : nat) (st : state) : state :=
  State (socket st) (running st) n (last_heartbeat st)
        (temp_dir_exists st) (files st).

Definition set_last_heartbeat (t : pyfloat) (st : state) : state :=
  State (socket st) (running st) (segment_counter st) t
        (temp_dir_exists st) (files st).

Definition set_files (fs : gmap nat Z) (st : state) : state :=
  State (socket st) (running st) (segment_counter st) (last_heartbeat st)
        (temp_dir_exists st) fs.

(** [__init__], with the reading of [time.time()] it takes. *)
Definition init (now : pyfloat) : state :=
  State None false 0%nat now true ∅.

(** What one [socket.connect] does: it returns, raises
    [ConnectionRefusedError], or raises anything else ([socket.gaierror],
    [TimeoutError], [OSError] for an unreachable network, ...). *)
Inductive conn_outcome := ConnOk | ConnRefused | ConnFault.

(** What one [subprocess.run(..., capture_output=True, text=True,
    timeout=...)] does: the child exits, the timeout expires, or the call
    raises anything else (the program cannot be spawned, ...). *)
Inductive run_outcome :=
| Completed (returncode : Z) (stdout stderr : pystr)
| TimeoutExpired
| RunFault.

(** What the sox call of lines 161-163 does. [written] is the size of the file
    sox leaves at [audio_file], if it leaves one. *)
Inductive sox_outcome :=
| SoxCompleted (returncode : Z) (written : option Z)
| SoxTimeoutExpired (written : option Z)
| SoxFault (written : option Z).

(** The effects of a run that can be seen from outside the process. *)
Inductive event :=
| EvConnect (r : conn_outcome)        (* socket.connect((host, port)) *)
| EvClose                             (* socket.close() *)
| EvSleep (seconds : Q)               (* time.sleep *)
| EvSox (seg : nat) (written : option Z) (* sox spawned on audio_seg.wav *)
| EvEngine (seg : nat)                (* the engine spawned on audio_seg.wav *)
| EvPkill                             (* pkill -f faster_whisper *)
| EvSend (data : list N) (ok : bool)  (* socket.send(data) *)
| EvUnlink (seg : nat)                (* os.unlink(audio_seg.wav) *)
| EvRmtree.                           (* shutil.rmtree(temp_dir) *)

(** An outcome of a call: a value, or an exception that leaves it. *)
Inductive result (A : Type) := Return (a : A) | Raise.
Arguments Return {A} a.
Arguments Raise {A}.

(** *** [connect_to_nodejs] *)

Definition max_retries : nat := 5.
Definition retry_delay : Q := 2.

(** The [for attempt in range(max_retries)] loop, [todo] attempts from the
    end. [net attempt] is what the connect of that attempt does. Only
    [ConnectionRefusedError] is caught (line 38). *)
Fixpoint connect_attempts (todo attempt : nat) (net : nat -> conn_outcome)
    (st : state) : state * list event * result bool :=
  match todo with
  | O => (st, [], Return false)
  | S todo' =>
      match net attempt with
      | ConnOk => (set_socket (Some Connected) st, [EvConnect ConnOk], Return true)
      | ConnRefused =>
          let '(st', tr, r) :=
            connect_attempts todo' (S attempt) net (set_socket (Some Closed) st) in
          (st', EvConnect ConnRefused :: EvClose :: EvSleep retry_delay :: tr, r)
      | ConnFault =>
          (set_socket (Some Unconnected) st, [EvConnect ConnFault], Raise)
      end
  end.

Definition connect_to_nodejs (net : nat -> conn_outcome) (st : state)
  : state * list event * result bool :=
  connect_attempts max_retries 0 net st.

(** *** [send_transcription] *)

(** [self.socket.send(data)]: [wire_ok] says whether the peer takes the
    data; a socket that is not connected raises whatever the peer does. *)
Definition sock_send (s : sock) (wire_ok : bool) : bool :=
  match s with Connected => wire_ok | _ => false end.

(** Lines 47-69. Every exception of the body is caught and turned into
    [False]; the socket field is not touched. The [print] of line 64 sits
    in the [try], after the send: when it raises, the record has been
    handed to the socket and [False] is returned all the same. *)
Definition send_transcription (text : pystr) (is_final : bool)
    (now : pyfloat) (wire_ok : bool) (st : state) : list event * bool :=
  match socket st with
  | None => ([], false)
  | Some s =>
      match wire (transcription_message text now is_final) with
      | None => ([], false)
      | Some data =>
          let ok := sock_send s wire_ok in
          ([EvSend data ok], ok && stdout_takes text)
      end
  end.

(** *** [transcribe_audio_chunk] *)

(** The two deadlines, in seconds: [signal.alarm(5)] in the child (line
    88), [timeout=8] on the [subprocess.run] that wraps it (line 117). *)
Definition alarm_seconds : Q := 5.
Definition run_timeout : Q := 8.

(** Lines 71-140, given what the [subprocess.run] of line 114 does. *)
Definition transcribe_audio_chunk (seg : nat) (r : run_outcome)
  : list event * pystr :=
  match r with
  | Completed returncode stdout stderr =>
      if (returncode =? 0) && truthy (strip stdout)
      then ([EvEngine seg], strip stdout)
      else ([EvEngine seg], [])
  | TimeoutExpired => ([EvEngine seg; EvPkill], [])
  | RunFault => ([EvEngine seg], [])
  end.

(** The script handed to [python3 -c] (lines 79-109), by what happens in
    it: the engine yields its segments, something in the [try] raises an
    [Exception] whose [str] is [e], or the [SIGALRM] handler runs. In each
    case the child exits by itself, so [subprocess.run] completes. *)
Inductive engine_behaviour :=
| Segments (texts : list pystr)
| EngineException (e : pystr)
| Alarm.

(** What the parent reads of a line the child prints on its standard
    output, and of the line of line 108 on its standard error. *)
Definition stdout_line (s : pystr) : pystr := translate_newlines (s ++ [10%N]).

Definition stderr_line (e : pystr) : pystr :=
  translate_newlines (backslashreplace (of_string "Error: " ++ e) ++ [10%N]).

(** The [print] of line 105 is inside the [try]: when the text cannot be
    encoded it raises, nothing is written on the standard output, and the
    handler of line 106 reports the [UnicodeEncodeError] and exits with 1. *)
Definition whisper_script (b : engine_behaviour) : run_outcome :=
  match b with
  | Segments texts =>
      let text := strip (flat_map (fun t => strip t ++ of_string " ") texts) in
      if stdout_takes text
      then Completed 0 (stdout_line text) []
      else Completed 1 [] (stderr_line (surrogates_not_allowed text))
  | EngineException e =>
      Completed 1 [] (stderr_line e)
  | Alarm =>
      Completed 1 (stdout_line ([9200%N] ++ of_string " Transcription timeout")) []
  end.

(** The engine call in time. [work] is what the [try] block of the child
    does when it is left to end (not [Alarm]); the other fields are
    durations in seconds:
    - [armed_after]: from the spawn of the child to [signal.alarm(5)];
    - [work_seconds]: from there to the [signal.alarm(0)] of line 104 or
      107, were the block left to end;
    - [handler_delay]: from the alarm signal to the moment the interpreter
      runs [timeout_handler] (a handler runs between two bytecodes, so not
      while the engine is inside native code);
    - [exit_seconds]: from [signal.alarm(0)], or from the handler, to the
      exit of the child. *)
Record engine_run := EngineRun {
  work : engine_behaviour;
  armed_after : Q;
  work_seconds : Q;
  handler_delay : Q;
  exit_seconds : Q
}.

(** The alarm is raised unless line 104 or 107 cancels it first. *)
Definition alarm_fires (r : engine_run) : bool :=
  Qle_bool alarm_seconds (work_seconds r).

Definition child_script (r : engine_run) : engine_behaviour :=
  if alarm_fires r then Alarm else work r.

(** The life of the child, from its spawn, if nothing kills it. *)
Definition child_seconds (r : engine_run) : Q :=
  armed_after r
  + (if alarm_fires r then alarm_seconds + handler_delay r else work_seconds r)
  + exit_seconds r.

(** The [subprocess.run] of line 114: a child that has not exited when the
    timeout expires is killed and [TimeoutExpired] is raised. *)
Definition engine_call (r : engine_run) : run_outcome :=
  if Qle_bool run_timeout (child_seconds r) then TimeoutExpired
  else whisper_script (child_script r).

(** *** One pass of the [while self.running] loop *)

(** What one pass meets. A field is read only if the pass reaches the call
    it stands for. *)
Record iter_env := IterEnv {
  sox : sox_outcome;             (* the sox call, line 161 *)
  engine : run_outcome;          (* the engine call, line 114 *)
  send_time : pyfloat;           (* time.time(), line 56 *)
  send_ok : bool;                (* whether the peer takes the message, line 61 *)
  current_time : pyfloat;        (* time.time(), line 181 *)
  heartbeat_ok : bool;           (* whether the peer takes the heartbeat, line 186 *)
  reconnect : nat -> conn_outcome; (* the connects of line 214 *)
  stop_requested : bool          (* self.running is cleared during the pass *)
}.

(** The file the sox call leaves, whatever way it ends. *)
Definition sox_written (o : sox_outcome) : option Z :=
  match o with
  | SoxCompleted _ written | SoxTimeoutExpired written | SoxFault written => written
  end.

(** The file sox leaves, written into the temporary directory. *)
Definition sox_writes (seg : nat) (written : option Z) (fs : gmap nat Z)
  : gmap nat Z :=
  match written with
  | Some size => <[seg := size]> fs
  | None => fs
  end.

(** [if os.path.exists(audio_file): os.unlink(audio_file)] *)
Definition cleanup (seg : nat) (st : state) : state * list event :=
  match files st !! seg with
  | Some _ => (set_files (delete seg (files st)) st, [EvUnlink seg])
  | None => (st, [])
  end.

(** Lines 165-178: the two gates, the engine and the send. The value of
    [send_transcription] is dropped (line 178). *)
Definition process_segment (seg : nat) (returncode : Z) (e : iter_env)
    (st : state) : list event :=
  if returncode =? 0 then
    match files st !! seg with
    | Some file_size =>
        if isWorthTranscribing file_size then
          let '(tr, transcription) := transcribe_audio_chunk seg (engine e) in
          if isMeaningfulText transcription then
            tr ++ fst (send_transcription transcription true
                         (send_time e) (send_ok e) st)
          else tr
        else []
    | None => []
    end
  else [].

(** [current_time - self.last_heartbeat > 30] *)
Definition heartbeat_due (current_time last : pyfloat) : bool :=
  negb (Qle_bool (fval current_time - fval last) 30).

(** Lines 181-189. The bare [except] catches whatever the [try] raises,
    the [AttributeError] of [None.send] included. *)
Definition heartbeat (e : iter_env) (st : state) : state * list event :=
  if heartbeat_due (current_time e) (last_heartbeat st) then
    match socket st with
    | None => (st, [])
    | Some s =>
        match wire (keepalive_message (current_time e)) with
        | None => (st, [])
        | Some data =>
            if sock_send s (heartbeat_ok e)
            then (set_last_heartbeat (current_time e) st, [EvSend data true])
            else (st, [EvSend data false])
        end
    end
  else (st, []).

(** [not self.socket or self.socket.fileno() == -1] *)
Definition connection_lost (st : state) : bool :=
  match socket st with
  | None | Some Closed => true
  | Some _ => false
  end.

(** Lines 147-163: the file name is made from the counter, the counter is
    incremented, sox is run and leaves its file (or none). *)
Definition capture (e : iter_env) (st : state) : state :=
  let seg := segment_counter st in
  set_files (sox_writes seg (sox_written (sox e)) (files st))
            (set_segment_counter (S seg) st).

(** Lines 145-220: the body of the loop. [Raise] is an exception that no
    handler of the body catches, which ends the thread. *)
Definition iteration (e : iter_env) (st : state)
  : state * list event * result unit :=
  let seg := segment_counter st in
  let ev_sox := EvSox seg (sox_written (sox e)) in
  let st1 := capture e st in
  match sox e with
  | SoxCompleted returncode _ =>
      let tr_p := process_segment seg returncode e st1 in
      let '(st2, tr_h) := heartbeat e st1 in
      let '(st3, tr_c) := cleanup seg st2 in
      (st3, ev_sox :: tr_p ++ tr_h ++ tr_c ++ [EvSleep (1 # 5)], Return tt)
  | SoxTimeoutExpired _ =>
      let '(st2, tr_c) := cleanup seg st1 in
      (st2, ev_sox :: tr_c, Return tt)
  | SoxFault _ =>
      let '(st2, tr_c) := cleanup seg st1 in
      if connection_lost st2 then
        match connect_to_nodejs (reconnect e) st2 with
        | (st3, tr_r, Return _) =>
            (st3, ev_sox :: tr_c ++ tr_r ++ [EvSleep 2], Return tt)
        | (st3, tr_r, Raise) =>
            (st3, ev_sox :: tr_c ++ tr_r, Raise)
        end
      else (st2, ev_sox :: tr_c ++ [EvSleep 2], Return tt)
  end.

(** How [record_and_process_audio] ends. *)
Inductive loop_exit :=
| Stopped       (* the loop saw [self.running] false and returned *)
| Died          (* an exception left the loop *)
| Unfinished.   (* the passes described were run and the loop goes on *)

(** Lines 142-220. The loop runs for ever unless it is stopped; [envs]
    describes its first passes, one record per pass. *)
Fixpoint record_and_process_audio (envs : list iter_env) (st : state)
  : state * list event * loop_exit :=
  match envs with
  | [] => (st, [], if running st then Unfinished else Stopped)
  | e :: envs' =>
      if running st then
        match iteration e st with
        | (st1, tr, Return _) =>
            let st2 := if stop_requested e then set_running false st1 else st1 in
            let '(st3, tr', x) := record_and_process_audio envs' st2 in
            (st3, tr ++ tr', x)
        | (st1, tr, Raise) => (st1, tr, Died)
        end
      else (st, [], Stopped)
  end.

(** *** [start_streaming] and [main] *)

(** The [finally] block, lines 271-280. *)
Definition finally_cleanup (st : state) : state * list event :=
  let '(st1, tr1) :=
    match socket st with
    | Some _ => (set_socket (Some Closed) st, [EvClose])
    | None => (st, [])
    end in
  if temp_dir_exists st1
  then (State (socket st1) (running st1) (segment_counter st1)
              (last_heartbeat st1) false ∅, tr1 ++ [EvRmtree])
  else (st1, tr1).

(** Lines 222-280. [sox_ready] and [whisper_ready] say whether the two
    start-up tests pass. The recording thread is given the passes it
    completes before the main thread is interrupted; the main thread then
    clears [self.running] and runs the [finally] block.

    The two threads are put one after the other: [envs] holds the passes
    that end before the interrupt, and what the daemon thread does of the
    pass it is in at that moment, between the interrupt and the exit of the
    process that kills it, is not part of the trace. Nothing is therefore
    said here of a pass that meets the socket closed by the [finally]
    block. *)
Definition start_streaming (sox_ready whisper_ready : bool)
    (envs : list iter_env) (st : state) : state * list event :=
  if negb sox_ready then (st, [])
  else if negb whisper_ready then (st, [])
  else
    let '(st1, tr, _) := record_and_process_audio envs (set_running true st) in
    let '(st2, tr') := finally_cleanup (set_running false st1) in
    (st2, tr ++ tr').

(** What a run of the program meets. *)
Record run_env := RunEnv {
  start_time : pyfloat;            (* time.time() in __init__ *)
  first_connect : nat -> conn_outcome;
  sox_ready : bool;
  whisper_ready : bool;
  passes : list iter_env
}.

(** Lines 282-294. [Raise] is an exception that leaves [main]. *)
Definition main (w : run_env) : state * list event * result unit :=
  match connect_to_nodejs (first_connect w) (init (start_time w)) with
  | (st, tr, Return true) =>
      let '(st', tr') := start_streaming (sox_ready w) (whisper_ready w) (passes w) st in
      (st', tr ++ tr', Return tt)
  | (st, tr, Return false) => (st, tr, Return tt)
  | (st, tr, Raise) => (st, tr, Raise)
  end.

(** ** Reading a trace *)

Fixpoint starts_with (p data : list N) : bool :=
  match p, data with
  | [], _ => true
  | c :: p', d :: data' => (c =? d)%N && starts_with p' data'
  | _ :: _, [] => false
  end.

(** The bytes every transcription record starts with. *)
Definition transcription_prefix : list N :=
  of_string "{" ++ quoted "type" ++ of_string ": " ++ quoted "transcription".

(** Whether the bytes handed to [socket.send] are a transcription record
    (the other record of the protocol is the heartbeat). *)
Definition is_transcription (data : list N) : bool :=
  starts_with transcription_prefix data.

Definition is_content_send (ev : event) : bool :=
  match ev with EvSend data _ => is_transcription data | _ => false end.

Definition is_heartbeat_send (ev : event) : bool :=
  match ev with EvSend data _ => negb (is_transcription data) | _ => false end.

Definition is_connect (ev : event) : bool :=
  match ev with EvConnect _ => true | _ => false end.

Definition is_engine (ev : event) : bool :=
  match ev with EvEngine _ => true | _ => false end.

(** The segments captured, in the order of their capture. *)
Fixpoint captures (tr : list event) : list nat :=
  match tr with
  | [] => []
  | EvSox seg _ :: tr' => seg :: captures tr'
  | _ :: tr' => captures tr'
  end.

(** The segments whose transcription was handed to the socket, in the order
    of the sends. A send belongs to the segment captured last before it;
    [cur] is that segment at the start of [tr]. *)
Fixpoint deliveries (cur : option nat) (tr : list event) : list nat :=
  match tr with
  | [] => []
  | EvSox seg _ :: tr' => deliveries (Some seg) tr'
  | EvSend data _ :: tr' =>
      if is_transcription data
      then match cur with
           | Some seg => seg :: deliveries cur tr'
           | None => deliveries cur tr'
           end
      else deliveries cur tr'
  | _ :: tr' => deliveries cur tr'
  end.

(** The audio artifacts in the temporary directory after the effects of
    [tr], when [fs] were there before. *)
Fixpoint artifacts (tr : list event) (fs : gset nat) : gset nat :=
  match tr with
  | [] => fs
  | EvSox seg (Some _) :: tr' => artifacts tr' ({[seg]} ∪ fs)
  | EvUnlink seg :: tr' => artifacts tr' (fs ∖ {[seg]})
  | EvRmtree :: tr' => artifacts tr' ∅
  | _ :: tr' => artifacts tr' fs
  end.

(** Characters from space to tilde. *)
Definition printable (s : list N) : Prop :=
  Forall (fun c => (32 <= c <= 126)%N) s.

(** Bytes that are 7-bit ASCII. *)
Definition ascii7 (s : list N) : Prop := Forall (fun c => (c < 128)%N) s.

(** The bytes of a transcription record: [text] is the value of the
    transcription, [ts] the bytes of the timestamp. *)
Definition record_head : list N :=
  of_string "{" ++ quoted "type" ++ of_string ": " ++ quoted "transcription"
  ++ of_string ", " ++ quoted "text" ++ of_string ": ".

Definition record_mid : list N :=
  of_string ", " ++ quoted "timestamp" ++ of_string ": ".

Definition record_tail (is_final : bool) : list N :=
  of_string ", " ++ quoted "isFinal" ++ of_string ": "
  ++ of_string (if is_final then "true" else "false") ++ of_string "}" ++ [10%N].

Definition transcription_record (text : pystr) (ts : list N) (is_final : bool)
  : list N :=
  record_head ++ encode_basestring_ascii text ++ record_mid ++ ts
  ++ record_tail is_final.

(** The bytes of a heartbeat record. *)
Definition keepalive_record (ts : list N) : list N :=
  of_string "{" ++ quoted "type" ++ of_string ": " ++ quoted "heartbeat"
  ++ of_string ", " ++ quoted "timestamp" ++ of_string ": " ++ ts
  ++ of_string "}" ++ [10%N].

(** The trace of a pass, and the state it leaves. *)
Definition iteration_trace (e : iter_env) (st : state) : list event :=
  snd (fst (iteration e st)).

Definition iteration_state (e : iter_env) (st : state) : state :=
  fst (fst (iteration e st)).

Definition loop_trace (envs : list iter_env) (st : state) : list event :=
  snd (fst (record_and_process_audio envs st)).

Definition loop_state (envs : list iter_env) (st : state) : state :=
  fst (fst (record_and_process_audio envs st)).

Definition main_trace (w : run_env) : list event := snd (fst (main w)).

(** The text [transcribe_audio_chunk] returns (it does not depend on the
    name of the file). *)
Definition transcription_of (r : run_outcome) : pystr :=
  snd (transcribe_audio_chunk 0 r).

(** What [os.path.getsize(audio_file)] reads after the sox call of a pass
    ([None]: [os.path.exists(audio_file)] is false). *)
Definition file_size (e : iter_env) (st : state) : option Z :=
  files (capture e st) !! segment_counter st.

(** The events a pass can log, each with the conditions under which the
    pass logs it. *)
Inductive pass_event (e : iter_env) (st : state) : event -> Prop :=
| PeSox :
    pass_event e st (EvSox (segment_counter st) (sox_written (sox e)))
| PeEngine w size :
    sox e = SoxCompleted 0 w -> file_size e st = Some size -> 8000 < size ->
    pass_event e st (EvEngine (segment_counter st))
| PePkill w size :
    sox e = SoxCompleted 0 w -> file_size e st = Some size -> 8000 < size ->
    engine e = TimeoutExpired ->
    pass_event e st EvPkill
| PeContent w size s ts :
    sox e = SoxCompleted 0 w -> file_size e st = Some size -> 8000 < size ->
    2 < len (strip (transcription_of (engine e))) ->
    socket st = Some s ->
    encode_utf8 (of_string (frepr (send_time e))) = Some ts ->
    pass_event e st
      (EvSend (transcription_record (transcription_of (engine e)) ts true)
              (sock_send s (send_ok e)))
| PeHeartbeat rc w s ts :
    sox e = SoxCompleted rc w ->
    heartbeat_due (current_time e) (last_heartbeat st) = true ->
    socket st = Some s ->
    encode_utf8 (of_string (frepr (current_time e))) = Some ts ->
    pass_event e st
      (EvSend (keepalive_record ts) (sock_send s (heartbeat_ok e)))
| PeUnlink :
    pass_event e st (EvUnlink (segment_counter st))
| PeSleep q :
    pass_event e st (EvSleep q)
| PeConnect w r :
    sox e = SoxFault w -> connection_lost st = true ->
    pass_event e st (EvConnect r)
| PeClose w :
    sox e = SoxFault w -> connection_lost st = true ->
    pass_event e st EvClose.

(** The state the next pass starts from. *)
Definition after_pass (e : iter_env) (st : state) : state :=
  if stop_requested e then set_running false (iteration_state e st)
  else iteration_state e st.

Definition loop_exit_of (envs : list iter_env) (st : state) : loop_exit :=
  snd (record_and_process_audio envs st).

(** ** Concrete runs *)

Definition t_start : pyfloat := PyFloat 1700000000 "1700000000.0".

(** A moment [dt] seconds after [t_start]. The text of the timestamp plays
    no part in the control flow, so one text serves for all. *)
Definition t_after (dt : Z) : pyfloat :=
  PyFloat (1700000000 + inject_Z dt) "1700000001.5".

(** A streamer whose first connection succeeded and whose loop runs. *)
Definition connected_streamer : state :=
  set_running true (set_socket (Some Connected) (init t_start)).

(** The engine hears two segments. *)
Definition hello_world : run_outcome :=
  whisper_script (Segments [of_string " hello"; of_string "world "]).

(** A pass at [dt] seconds in which sox ends as [o], the engine as [r], and
    the peer takes the content or not ([content_ok]) and the heartbeat or
    not ([hb_ok]). *)
Definition pass_at (dt : Z) (o : sox_outcome) (r : run_outcome)
    (content_ok hb_ok : bool) : iter_env :=
  IterEnv o r (t_after dt) content_ok (t_after dt) hb_ok
          (fun _ => ConnRefused) false.

(** Two seconds of speech: 64044 bytes of 16 kHz 16-bit mono audio. *)
Definition speech : sox_outcome := SoxCompleted 0 (Some 64044).

(** A run whose first connection succeeds and whose passes are [ps]. *)
Definition run_of (ps : list iter_env) : run_env :=
  RunEnv t_start (fun _ => ConnOk) true true ps.

(** An event that neither captures a segment nor delivers a transcription. *)
Definition quiet (ev : event) : bool :=
  match ev with
  | EvSox _ _ => false
  | EvSend data _ => negb (is_transcription data)
  | _ => true
  end.

(** The segments in flight after the effects of [tr] in a temporary
    directory that was empty: captured, and their artifact not yet removed. *)
Definition in_flight (tr : list event) : gset nat := artifacts tr ∅.

(** An event that neither captures, nor delivers a transcription, nor
    touches the temporary directory. *)
Definition calm (ev : event) : bool :=
  match ev with
  | EvSox _ _ | EvUnlink _ | EvRmtree => false
  | EvSend data _ => negb (is_transcription data)
  | _ => true
  end.

(** The removal of the artifact of a pass, if sox left one or one was there. *)
Definition removal (e : iter_env) (st : state) : list event :=
  match file_size e st with
  | Some _ => [EvUnlink (segment_counter st)]
  | None => []
  end.

(** At every moment of [tr], at most one segment is in flight. *)
Definition one_at_a_time (tr : list event) : Prop :=
  forall p q, tr = p ++ q -> (size (in_flight p) <= 1)%nat.

Definition no_capture (ev : event) : bool :=
  match ev with EvSox _ _ => false | _ => true end.

(** ** Comparing runs *)

Definition set_heartbeat_ok (b : bool) (e : iter_env) : iter_env :=
  IterEnv (sox e) (engine e) (send_time e) (send_ok e) (current_time e) b
          (reconnect e) (stop_requested e).

(** [e'] is [e] but for what happens to the heartbeat send. *)
Definition heartbeat_variant (e e' : iter_env) : Prop :=
  e' = set_heartbeat_ok (heartbeat_ok e') e.

(** A trace without its heartbeat sends. *)
Definition without_heartbeats (tr : list event) : list event :=
  List.filter (fun ev => negb (is_heartbeat_send ev)) tr.

(** Whether the engine call failed: the child exited with a non-zero code
    (which it does when its alarm fires, and when the engine raises), the
    timeout of [subprocess.run] expired, or the call raised. *)
Definition engine_failed (r : run_outcome) : bool :=
  match r with
  | Completed returncode _ _ => negb (returncode =? 0)
  | TimeoutExpired => true
  | RunFault => true
  end.

(** [k] refused connection attempts. *)
Fixpoint refusals (k : nat) : list event :=
  match k with
  | O => []
  | S k' => EvConnect ConnRefused :: EvClose :: EvSleep retry_delay :: refusals k'
  end.

(** ** The two other streamers

    [src/simple_realtime_stt.py] and [src/realtime_stt_streamer.py] hand the
    text that the RealtimeSTT recorder gives to their callbacks to the same
    socket protocol. Of their objects only the socket matters here. *)

Module Simple.

(** [SimpleRealtimeSTT.send_transcription], lines 40-62: the same body as
    the one of the sox streamer. *)
Definition send_transcription (text : pystr) (is_final : bool)
    (now : pyfloat) (wire_ok : bool) (so : option sock) : list event * bool :=
  match so with
  | None => ([], false)
  | Some s =>
      match wire (transcription_message text now is_final) with
      | None => ([], false)
      | Some data =>
          let ok := sock_send s wire_ok in
          ([EvSend data ok], ok && stdout_takes text)
      end
  end.

(** Lines 64-67. *)
Definition on_realtime_transcription_update (text : pystr)
    (now : pyfloat) (wire_ok : bool) (so : option sock) : list event :=
  if truthy (strip text)
  then fst (send_transcription (strip text) false now wire_ok so)
  else [].

(** Lines 69-72. *)
Definition on_realtime_transcription_stabilized (text : pystr)
    (now : pyfloat) (wire_ok : bool) (so : option sock) : list event :=
  if truthy (strip text)
  then fst (send_transcription (strip text) true now wire_ok so)
  else [].

End Simple.

Module Realtime.

(** The dict built at lines 47-51 of [realtime_stt_streamer.py]: no
    [isFinal] key. *)
Definition transcription_message (text : pystr) (now : pyfloat) : pydict :=
  [ (of_string "type", JStr (of_string "transcription"));
    (of_string "text", JStr text);
    (of_string "timestamp", JFloat now) ].

(** [STTStreamer.send_transcription], lines 41-60. *)
Definition send_transcription (text : pystr)
    (now : pyfloat) (wire_ok : bool) (so : option sock) : list event * bool :=
  match so with
  | None => ([], false)
  | Some s =>
      match wire (transcription_message text now) with
      | None => ([], false)
      | Some data =>
          let ok := sock_send s wire_ok in
          ([EvSend data ok], ok && stdout_takes text)
      end
  end.

(** Lines 62-66. The [print] of line 65 comes before the send and is not
    in a [try]: when it raises, the exception leaves the callback and
    nothing is sent. *)
Definition on_realtime_transcription_update (text : pystr)
    (now : pyfloat) (wire_ok : bool) (so : option sock) : list event :=
  if truthy (strip text) then
    if stdout_takes (strip text)
    then fst (send_transcription (strip text) now wire_ok so)
    else []
  else [].

(** Lines 68-72: the text is sent behind the prefix [FINAL:]. The [print]
    of line 71 comes first, as in the live update. *)
Definition on_realtime_transcription_stabilized (text : pystr)
    (now : pyfloat) (wire_ok : bool) (so : option sock) : list event :=
  if truthy (strip text) then
    if stdout_takes (strip text)
    then fst (send_transcription (of_string "FINAL:" ++ strip text) now wire_ok so)
    else []
  else [].

End Realtime.

(** ** More readings of traces and bytes *)

(** How many newline bytes [data] holds. *)
Definition newlines (data : list N) : nat :=
  length (List.filter (N.eqb 10) data).

(** How many events of [tr] satisfy [p]. *)
Definition count_events (p : event -> bool) (tr : list event) : nat :=
  length (List.filter p tr).

Definition is_send (ev : event) : bool :=
  match ev with EvSend _ _ => true | _ => false end.

(** A text none of whose characters is a newline. *)
Definition one_line (s : string) : Prop :=
  Forall (fun c => c <> 10%N) (of_string s).

(** Code points that stand for characters: below 0x110000 and no surrogate.
    (A Python [str] can hold lone surrogates.) *)
Definition scalar (c : N) : bool :=
  ((c <? 1114112) && negb ((55296 <=? c) && (c <=? 57343)))%N.

(** ** Reading a JSON string back

    What [encode_basestring_ascii] writes between the quotes, read back the
    way a JSON reader does. It serves to show that the escaping loses
    nothing; the streamers themselves never read. *)

Definition unhex (d : N) : option N :=
  (if (48 <=? d) && (d <=? 57) then Some (d - 48)
   else if (97 <=? d) && (d <=? 102) then Some (d - 87)
   else None)%N.

Definition unhex4 (a b c d : N) : option N :=
  match unhex a, unhex b, unhex c, unhex d with
  | Some x, Some y, Some z, Some t => Some (x * 4096 + y * 256 + z * 16 + t)%N
  | _, _, _, _ => None
  end.

(** The character a one-letter escape stands for. *)
Definition simple_escape (k : N) : option N :=
  (if k =? 34 then Some 34
   else if k =? 92 then Some 92
   else if k =? 110 then Some 10
   else if k =? 114 then Some 13
   else if k =? 116 then Some 9
   else if k =? 98 then Some 8
   else if k =? 102 then Some 12
   else None)%N.

Fixpoint unescape (s : pystr) : option pystr :=
  match s with
  | [] => Some []
  | c :: rest =>
      if negb (c =? 92)%N then option_map (cons c) (unescape rest)
      else
        match rest with
        | [] => None
        | k :: r =>
            if negb (k =? 117)%N then
              match simple_escape k with
              | Some x => option_map (cons x) (unescape r)
              | None => None
              end
            else
              match r with
              | a :: b :: c' :: d :: r1 =>
                  match unhex4 a b c' d with
                  | None => None
                  | Some hi =>
                      if ((55296 <=? hi) && (hi <=? 56319))%N then
                        match r1 with
                        | b1 :: u1 :: a2 :: b2 :: c2 :: d2 :: r2 =>
                            if ((b1 =? 92) && (u1 =? 117))%N then
                              match unhex4 a2 b2 c2 d2 with
                              | Some lo =>
                                  if ((56320 <=? lo) && (lo <=? 57343))%N then
                                    option_map
                                      (cons (65536 + (hi - 55296) * 1024
                                             + (lo - 56320))%N)
                                      (unescape r2)
                                  else None
                              | None => None
                              end
                            else None
                        | _ => None
                        end
                      else option_map (cons hi) (unescape r1)
                  end
              | _ => None
              end
        end
  end.

(** Attempt [k] is within the budget, ends as [o], and every attempt before
    it was refused. *)
Definition first_outcome (net : nat -> conn_outcome) (k : nat)
    (o : conn_outcome) : Prop :=
  (k < max_retries)%nat /\ net k = o /\
  forall i, (i < k)%nat -> net i = ConnRefused.

(** * Properties *)

(** ** The model on concrete inputs *)

Example isMeaningfulText_hello :
  isMeaningfulText (of_string "hello world") = true.
Proof. reflexivity. Qed.

Example isMeaningfulText_ok_padded :
  isMeaningfulText (of_string "  ok  ") = false.
Proof. reflexivity. Qed.

Example wire_hello :
  wire (transcription_message (of_string "hello world") t_example true)
  = Some (of_string "{" ++ quoted "type" ++ of_string ": " ++ quoted "transcription"
          ++ of_string ", " ++ quoted "text" ++ of_string ": " ++ quoted "hello world"
          ++ of_string ", " ++ quoted "timestamp" ++ of_string ": 1700000000.5"
          ++ of_string ", " ++ quoted "isFinal" ++ of_string ": true}"
          ++ [10%N]).
Proof. reflexivity. Qed.


(** ** Strings and the wire format *)

Section WireFacts.

Lemma encode_utf8_app (a b : pystr) :
  encode_utf8 (a ++ b) =
  match encode_utf8 a, encode_utf8 b with
  | Some x, Some y => Some (x ++ y)
  | _, _ => None
  end.
Proof.
  induction a as [|c a IH]; simpl.
  - destruct (encode_utf8 b); reflexivity.
  - rewrite IH. destruct (utf8_char c) as [x|]; [|reflexivity].
    destruct (encode_utf8 a) as [xs|]; [|reflexivity].
    destruct (encode_utf8 b) as [ys|]; [|reflexivity].
    now rewrite <- app_assoc.
Qed.

Lemma encode_utf8_ascii (s : pystr) : ascii7 s -> encode_utf8 s = Some s.
Proof.
  induction 1 as [|c s Hc _ IH]; simpl; [reflexivity|].
  unfold utf8_char. apply N.ltb_lt in Hc. rewrite Hc, IH. reflexivity.
Qed.

Lemma printable_ascii7 (s : list N) : printable s -> ascii7 s.
Proof. apply List.Forall_impl. intros c Hc. lia. Qed.

Lemma printable_app (a b : list N) : printable a -> printable b -> printable (a ++ b).
Proof. apply Forall_app_2. Qed.

Lemma hex_digit_printable (x : N) :
  (32 <= hex_digit (N.land x 15) <= 126)%N.
Proof.
  assert (H : (N.land x 15 < 16)%N).
  { change 15%N with (N.ones 4). rewrite N.land_ones.
    apply N.mod_lt. discriminate. }
  unfold hex_digit. destruct (N.ltb_spec (N.land x 15) 10); lia.
Qed.

Lemma backslash_u_printable (n : N) : printable (backslash_u n).
Proof.
  unfold backslash_u, hex4.
  repeat constructor; try apply hex_digit_printable; discriminate.
Qed.

(** Whatever the text holds, its JSON string is made of printable ASCII:
    no raw newline, no raw control character, nothing beyond 7 bits. *)
Lemma escape_char_printable (c : N) : printable (escape_char c).
Proof.
  unfold escape_char.
  repeat match goal with
         | |- context [if (?a =? ?b)%N then _ else _] =>
             destruct (a =? b)%N; [repeat constructor; discriminate|]
         end.
  destruct ((32 <=? c) && (c <=? 126))%N eqn:Hp.
  - apply andb_prop in Hp as [Hl Hp]. apply N.leb_le in Hl, Hp.
    repeat constructor; assumption.
  - destruct (c <? 65536)%N;
      [|apply printable_app]; apply backslash_u_printable.
Qed.

Lemma encode_basestring_ascii_printable (s : pystr) :
  printable (encode_basestring_ascii s).
Proof.
  unfold encode_basestring_ascii.
  apply printable_app; [repeat constructor; discriminate|].
  apply printable_app; [|repeat constructor; discriminate].
  induction s as [|c s IH]; simpl; [constructor|].
  apply printable_app; [apply escape_char_printable | exact IH].
Qed.

Lemma encode_basestring_ascii_ascii (s : pystr) :
  ascii7 (encode_basestring_ascii s).
Proof. apply printable_ascii7, encode_basestring_ascii_printable. Qed.

(** The text [repr] gives to a float always encodes. *)
Lemma encode_utf8_of_string (s : string) :
  exists bytes, encode_utf8 (of_string s) = Some bytes.
Proof.
  unfold of_string.
  induction (list_ascii_of_string s) as [|a l [bs IH]]; simpl; [now eexists|].
  rewrite IH. unfold utf8_char.
  assert (Ha : (N_of_ascii a < 256)%N) by apply N_ascii_bounded.
  destruct (N_of_ascii a <? 128)%N; [now eexists|].
  destruct (N.ltb_spec (N_of_ascii a) 2048); [now eexists | lia].
Qed.

End WireFacts.

Lemma ascii7_record_head : ascii7 record_head.
Proof. repeat (constructor; [reflexivity|]). constructor. Qed.

Lemma ascii7_record_mid : ascii7 record_mid.
Proof. repeat (constructor; [reflexivity|]). constructor. Qed.

Lemma ascii7_record_tail (f : bool) : ascii7 (record_tail f).
Proof. destruct f; repeat (constructor; [reflexivity|]); constructor. Qed.

(** What [wire] makes of a transcription message. *)
Lemma wire_transcription (text : pystr) (now : pyfloat) (f : bool) :
  exists ts,
    encode_utf8 (of_string (frepr now)) = Some ts /\
    wire (transcription_message text now f) = Some (transcription_record text ts f).
Proof.
  destruct (encode_utf8_of_string (frepr now)) as [ts Hts].
  exists ts. split; [exact Hts|].
  unfold wire.
  assert (E : dumps (transcription_message text now f) ++ [10%N]
              = record_head ++ encode_basestring_ascii text ++ record_mid
                ++ of_string (frepr now) ++ record_tail f).
  { unfold dumps, transcription_message, record_head, record_mid, record_tail, quoted.
    cbn [map join_items fst snd].
    unfold dumps_item, dumps_value, encode_basestring_ascii. cbn [fst snd].
    destruct f; rewrite <- ?app_assoc; reflexivity. }
  rewrite E, !encode_utf8_app, Hts.
  rewrite (encode_utf8_ascii _ ascii7_record_head).
  rewrite (encode_utf8_ascii _ (encode_basestring_ascii_ascii text)).
  rewrite (encode_utf8_ascii _ ascii7_record_mid).
  rewrite (encode_utf8_ascii _ (ascii7_record_tail f)).
  reflexivity.
Qed.

(** What [wire] makes of a heartbeat message. *)
Lemma wire_keepalive (t : pyfloat) :
  exists ts,
    encode_utf8 (of_string (frepr t)) = Some ts /\
    wire (keepalive_message t) = Some (keepalive_record ts).
Proof.
  destruct (encode_utf8_of_string (frepr t)) as [ts Hts].
  exists ts. split; [exact Hts|].
  unfold wire.
  assert (E : dumps (keepalive_message t) ++ [10%N]
              = (of_string "{" ++ quoted "type" ++ of_string ": "
                 ++ quoted "heartbeat" ++ of_string ", " ++ quoted "timestamp"
                 ++ of_string ": ")
                ++ of_string (frepr t) ++ (of_string "}" ++ [10%N])).
  { unfold dumps, keepalive_message, quoted.
    cbn [map join_items fst snd].
    unfold dumps_item, dumps_value, encode_basestring_ascii. cbn [fst snd].
    rewrite <- ?app_assoc; reflexivity. }
  rewrite E, !encode_utf8_app, Hts.
  unfold keepalive_record. rewrite <- ?app_assoc. reflexivity.
Qed.

Lemma is_transcription_record (text : pystr) (ts : list N) (f : bool) :
  is_transcription (transcription_record text ts f) = true.
Proof. reflexivity. Qed.

Lemma is_transcription_keepalive (ts : list N) :
  is_transcription (keepalive_record ts) = false.
Proof. reflexivity. Qed.

(** ** The parts of a pass *)

Lemma isWorthTranscribing_iff (size : Z) :
  isWorthTranscribing size = true <-> 8000 < size.
Proof. unfold isWorthTranscribing. apply Z.ltb_lt. Qed.

(** The first conjunct of the test of line 176 follows from the second. *)
Lemma isMeaningfulText_iff (t : pystr) :
  isMeaningfulText t = true <-> 2 < len (strip t).
Proof.
  unfold isMeaningfulText. rewrite andb_true_iff, Z.ltb_lt. split.
  - intros [_ H]. exact H.
  - intros H. split; [|exact H]. destruct t; [|reflexivity].
    unfold len in H. simpl in H. lia.
Qed.

Lemma transcribe_audio_chunk_text (seg : nat) (r : run_outcome) :
  snd (transcribe_audio_chunk seg r) = transcription_of r.
Proof.
  unfold transcription_of. destruct r as [rc out err| |]; simpl; try reflexivity.
  destruct ((rc =? 0) && truthy (strip out)); reflexivity.
Qed.

(** The engine is spawned once by every call, and [pkill] is run only when
    the outer timeout expires. *)
Lemma transcribe_audio_chunk_trace (seg : nat) (r : run_outcome) :
  fst (transcribe_audio_chunk seg r)
  = EvEngine seg :: match r with TimeoutExpired => [EvPkill] | _ => [] end.
Proof.
  destruct r as [rc out err| |]; simpl; try reflexivity.
  destruct ((rc =? 0) && truthy (strip out)); reflexivity.
Qed.

(** A content send: nothing if there is no socket object, else one
    [socket.send] of the record, which the peer takes or not. *)
Lemma send_transcription_spec (text : pystr) (f : bool) (now : pyfloat)
    (ok : bool) (st : state) :
  (socket st = None /\ send_transcription text f now ok st = ([], false))
  \/ exists s ts,
       socket st = Some s /\
       encode_utf8 (of_string (frepr now)) = Some ts /\
       send_transcription text f now ok st
       = ([EvSend (transcription_record text ts f) (sock_send s ok)],
          sock_send s ok && stdout_takes text).
Proof.
  unfold send_transcription. destruct (socket st) as [s|]; [right|left; auto].
  destruct (wire_transcription text now f) as (ts & Hts & Hw).
  exists s, ts. rewrite Hw. auto.
Qed.

Lemma heartbeat_spec (e : iter_env) (st : state) :
  ((heartbeat_due (current_time e) (last_heartbeat st) = false \/ socket st = None)
   /\ heartbeat e st = (st, []))
  \/ exists s ts,
       heartbeat_due (current_time e) (last_heartbeat st) = true /\
       socket st = Some s /\
       encode_utf8 (of_string (frepr (current_time e))) = Some ts /\
       heartbeat e st
       = (if sock_send s (heartbeat_ok e)
          then set_last_heartbeat (current_time e) st else st,
          [EvSend (keepalive_record ts) (sock_send s (heartbeat_ok e))]).
Proof.
  unfold heartbeat.
  destruct (heartbeat_due (current_time e) (last_heartbeat st)); [|left; auto].
  destruct (socket st) as [s|]; [right|left; auto].
  destruct (wire_keepalive (current_time e)) as (ts & Hts & Hw).
  exists s, ts. rewrite Hw.
  destruct (sock_send s (heartbeat_ok e)); auto.
Qed.

Lemma cleanup_files (seg : nat) (st : state) :
  files (fst (cleanup seg st)) = delete seg (files st).
Proof.
  unfold cleanup. destruct (files st !! seg) eqn:H; simpl; [reflexivity|].
  symmetry. now apply delete_id.
Qed.

Lemma cleanup_trace (seg : nat) (st : state) :
  snd (cleanup seg st)
  = match files st !! seg with Some _ => [EvUnlink seg] | None => [] end.
Proof. unfold cleanup. destruct (files st !! seg); reflexivity. Qed.

Lemma cleanup_fields (seg : nat) (st : state) :
  let st' := fst (cleanup seg st) in
  socket st' = socket st /\ running st' = running st /\
  segment_counter st' = segment_counter st /\
  last_heartbeat st' = last_heartbeat st /\
  temp_dir_exists st' = temp_dir_exists st.
Proof. unfold cleanup. destruct (files st !! seg); simpl; auto. Qed.

Lemma heartbeat_fields (e : iter_env) (st : state) :
  let st' := fst (heartbeat e st) in
  socket st' = socket st /\ running st' = running st /\
  segment_counter st' = segment_counter st /\
  temp_dir_exists st' = temp_dir_exists st /\ files st' = files st.
Proof.
  destruct (heartbeat_spec e st) as [[_ H]|(s & ts & _ & _ & _ & H)];
    rewrite H; simpl; auto.
  destruct (sock_send s (heartbeat_ok e)); simpl; auto.
Qed.

(** ** [connect_to_nodejs] *)

Lemma connect_attempts_fields (todo attempt : nat) (net : nat -> conn_outcome)
    (st : state) :
  let st' := fst (fst (connect_attempts todo attempt net st)) in
  running st' = running st /\ segment_counter st' = segment_counter st /\
  last_heartbeat st' = last_heartbeat st /\
  temp_dir_exists st' = temp_dir_exists st /\ files st' = files st.
Proof.
  revert attempt st. induction todo as [|todo IH]; intros attempt st; simpl; [auto|].
  destruct (net attempt); simpl; auto.
  specialize (IH (S attempt) (set_socket (Some Closed) st)).
  destruct (connect_attempts todo (S attempt) net (set_socket (Some Closed) st))
    as [[st' tr] r]. simpl in *. exact IH.
Qed.

(** The events of a connect: attempts, each refused one followed by the
    close of the socket and the fixed delay. *)
Lemma connect_attempts_events (todo attempt : nat) (net : nat -> conn_outcome)
    (st : state) (ev : event) :
  In ev (snd (fst (connect_attempts todo attempt net st))) ->
  (exists r, ev = EvConnect r) \/ ev = EvClose \/ ev = EvSleep retry_delay.
Proof.
  revert attempt st. induction todo as [|todo IH]; intros attempt st; simpl; [tauto|].
  destruct (net attempt); simpl.
  - intros [<-|[]]. eauto.
  - specialize (IH (S attempt) (set_socket (Some Closed) st)).
    destruct (connect_attempts todo (S attempt) net (set_socket (Some Closed) st))
      as [[st' tr] r]. simpl in *.
    intros [<-|[<-|[<-|H]]]; eauto.
  - intros [<-|[]]. eauto.
Qed.

(** A connect with attempts left makes at least one. *)
Lemma connect_attempts_first (todo attempt : nat) (net : nat -> conn_outcome)
    (st : state) :
  exists tr,
    snd (fst (connect_attempts (S todo) attempt net st))
    = EvConnect (net attempt) :: tr.
Proof.
  simpl. destruct (net attempt); simpl; eauto.
  destruct (connect_attempts todo (S attempt) net (set_socket (Some Closed) st))
    as [[st' tr] r]. simpl. eauto.
Qed.

(** ** The trace of a pass *)

Lemma iteration_completed (e : iter_env) (st : state) (rc : Z) (w : option Z) :
  sox e = SoxCompleted rc w ->
  let seg := segment_counter st in
  let st1 := capture e st in
  let st2 := fst (heartbeat e st1) in
  iteration e st
  = (fst (cleanup seg st2),
     EvSox seg w :: process_segment seg rc e st1 ++ snd (heartbeat e st1)
       ++ snd (cleanup seg st2) ++ [EvSleep (1 # 5)],
     Return tt).
Proof.
  intros H. unfold iteration. rewrite H. simpl.
  destruct (heartbeat e (capture e st)) as [st2 tr_h]. simpl.
  destruct (cleanup (segment_counter st) st2) as [st3 tr_c]. reflexivity.
Qed.

Lemma iteration_timeout (e : iter_env) (st : state) (w : option Z) :
  sox e = SoxTimeoutExpired w ->
  let seg := segment_counter st in
  let st1 := capture e st in
  iteration e st
  = (fst (cleanup seg st1), EvSox seg w :: snd (cleanup seg st1), Return tt).
Proof.
  intros H. unfold iteration. rewrite H. simpl.
  destruct (cleanup (segment_counter st) (capture e st)) as [st2 tr_c].
  reflexivity.
Qed.

Lemma iteration_fault (e : iter_env) (st : state) (w : option Z) :
  sox e = SoxFault w ->
  let seg := segment_counter st in
  let st2 := fst (cleanup seg (capture e st)) in
  let tr_c := snd (cleanup seg (capture e st)) in
  let c := connect_to_nodejs (reconnect e) st2 in
  iteration e st
  = if connection_lost st then
      (fst (fst c),
       EvSox seg w :: tr_c ++ snd (fst c)
         ++ match snd c with Return _ => [EvSleep 2] | Raise => [] end,
       match snd c with Return _ => Return tt | Raise => Raise end)
    else (st2, EvSox seg w :: tr_c ++ [EvSleep 2], Return tt).
Proof.
  intros H. unfold iteration. rewrite H. simpl.
  pose proof (cleanup_fields (segment_counter st) (capture e st)) as (Hs & _).
  destruct (cleanup (segment_counter st) (capture e st)) as [st2 tr_c].
  simpl in *.
  assert (Hl : connection_lost st2 = connection_lost st).
  { unfold connection_lost. rewrite Hs. reflexivity. }
  rewrite Hl. destruct (connection_lost st); [|reflexivity].
  destruct (connect_to_nodejs (reconnect e) st2) as [[st3 tr_r] [b|]]; simpl;
    [reflexivity|].
  now rewrite app_nil_r.
Qed.

(** What the middle of a pass logs (lines 165-178). *)
Lemma process_segment_spec (seg : nat) (rc : Z) (e : iter_env) (st : state) :
  process_segment seg rc e st
  = if rc =? 0 then
      match files st !! seg with
      | Some size =>
          if 8000 <? size then
            fst (transcribe_audio_chunk seg (engine e))
            ++ (if isMeaningfulText (transcription_of (engine e))
                then fst (send_transcription (transcription_of (engine e)) true
                            (send_time e) (send_ok e) st)
                else [])
          else []
      | None => []
      end
    else [].
Proof.
  unfold process_segment, isWorthTranscribing.
  destruct (rc =? 0); [|reflexivity].
  destruct (files st !! seg) as [size|]; [|reflexivity].
  destruct (8000 <? size); [|reflexivity].
  rewrite <- (transcribe_audio_chunk_text seg).
  destruct (transcribe_audio_chunk seg (engine e)) as [tr text]. simpl.
  destruct (isMeaningfulText text); [reflexivity|now rewrite app_nil_r].
Qed.

Lemma capture_fields (e : iter_env) (st : state) :
  let st' := capture e st in
  socket st' = socket st /\ running st' = running st /\
  segment_counter st' = S (segment_counter st) /\
  last_heartbeat st' = last_heartbeat st /\
  temp_dir_exists st' = temp_dir_exists st.
Proof. unfold capture. simpl. auto. Qed.

Lemma In_cleanup_trace (seg : nat) (st : state) (ev : event) :
  In ev (snd (cleanup seg st)) -> ev = EvUnlink seg.
Proof.
  rewrite cleanup_trace. destruct (files st !! seg); simpl; [|tauto].
  intros [<-|[]]. reflexivity.
Qed.

(** Every event of a pass is one of those [pass_event] lists. *)
Lemma iteration_events (e : iter_env) (st : state) (ev : event) :
  In ev (iteration_trace e st) -> pass_event e st ev.
Proof.
  unfold iteration_trace.
  pose proof (capture_fields e st) as (Hsock & _ & _ & Hlast & _).
  destruct (sox e) as [rc w|w|w] eqn:Hsox.
  - rewrite (iteration_completed e st rc w Hsox). cbn [fst snd].
    intros [<-|H].
    { replace w with (sox_written (sox e)) by now rewrite Hsox. constructor. }
    rewrite !in_app_iff in H. destruct H as [H|[H|[H|H]]].
    + rewrite process_segment_spec in H.
      destruct (Z.eqb_spec rc 0) as [->|]; [|destruct H].
      fold (file_size e st) in H.
      destruct (file_size e st) as [size|] eqn:Hsize; [|destruct H].
      destruct (Z.ltb_spec 8000 size) as [Hgt|]; [|destruct H].
      apply in_app_or in H as [H|H].
      * rewrite transcribe_audio_chunk_trace in H. destruct H as [<-|H].
        { eapply PeEngine; eauto. }
        destruct (engine e) eqn:He; simpl in H; try contradiction.
        destruct H as [<-|[]]. eapply PePkill; eauto.
      * destruct (isMeaningfulText (transcription_of (engine e))) eqn:Hm;
          [|destruct H].
        apply isMeaningfulText_iff in Hm.
        destruct (send_transcription_spec (transcription_of (engine e)) true
                    (send_time e) (send_ok e) (capture e st))
          as [[_ Hs]|(s & ts & Hs1 & Hts & Hs)]; rewrite Hs in H;
          simpl in H; try contradiction.
        destruct H as [<-|[]].
        rewrite Hsock in Hs1. eapply PeContent; eauto.
    + destruct (heartbeat_spec e (capture e st))
        as [[_ Hh]|(s & ts & Hdue & Hs1 & Hts & Hh)]; rewrite Hh in H;
        simpl in H; try contradiction.
      destruct H as [<-|[]].
      rewrite Hsock in Hs1. rewrite Hlast in Hdue. eapply PeHeartbeat; eauto.
    + apply In_cleanup_trace in H as ->. constructor.
    + destruct H as [<-|[]]. constructor.
  - rewrite (iteration_timeout e st w Hsox). cbn [fst snd].
    intros [<-|H].
    { replace w with (sox_written (sox e)) by now rewrite Hsox. constructor. }
    apply In_cleanup_trace in H as ->. constructor.
  - rewrite (iteration_fault e st w Hsox). cbn zeta.
    destruct (connection_lost st) eqn:Hlost; cbn [fst snd].
    + intros [<-|H].
      { replace w with (sox_written (sox e)) by now rewrite Hsox. constructor. }
      rewrite !in_app_iff in H. destruct H as [H|[H|H]].
      * apply In_cleanup_trace in H as ->. constructor.
      * apply connect_attempts_events in H as [[r ->]|[->| ->]].
        -- eapply PeConnect; eauto.
        -- eapply PeClose; eauto.
        -- constructor.
      * destruct (snd (connect_to_nodejs _ _)); simpl in H; try contradiction.
        destruct H as [<-|[]]. constructor.
    + intros [<-|H].
      { replace w with (sox_written (sox e)) by now rewrite Hsox. constructor. }
      rewrite in_app_iff in H. destruct H as [H|[<-|[]]].
      * apply In_cleanup_trace in H as ->. constructor.
      * constructor.
Qed.

(** ** The loop *)

Lemma loop_not_running (envs : list iter_env) (st : state) :
  running st = false -> record_and_process_audio envs st = (st, [], Stopped).
Proof. intros H. destruct envs; simpl; rewrite H; reflexivity. Qed.

Lemma loop_cons (e : iter_env) (envs : list iter_env) (st : state) :
  running st = true ->
  record_and_process_audio (e :: envs) st
  = match snd (iteration e st) with
    | Return _ =>
        (loop_state envs (after_pass e st),
         iteration_trace e st ++ loop_trace envs (after_pass e st),
         loop_exit_of envs (after_pass e st))
    | Raise => (iteration_state e st, iteration_trace e st, Died)
    end.
Proof.
  intros H. simpl. rewrite H.
  unfold after_pass, iteration_state, iteration_trace, loop_state, loop_trace,
    loop_exit_of.
  destruct (iteration e st) as [[st1 tr] [[]|]]; simpl; [|reflexivity].
  destruct (record_and_process_audio envs _) as [[st3 tr'] x]. reflexivity.
Qed.

(** The events of the loop are events of its passes. *)
Lemma loop_events (envs : list iter_env) (st : state) (ev : event) :
  In ev (loop_trace envs st) ->
  exists e st', In e envs /\ pass_event e st' ev.
Proof.
  revert st. induction envs as [|e envs IH]; intros st.
  - unfold loop_trace. simpl. tauto.
  - destruct (running st) eqn:Hr.
    + unfold loop_trace. rewrite (loop_cons _ _ _ Hr).
      destruct (snd (iteration e st)); cbn [fst snd].
      * rewrite in_app_iff. intros [H|H].
        -- exists e, st. split; [now left|now apply iteration_events].
        -- destruct (IH _ H) as (e' & st' & Hin & Hp).
           exists e', st'. split; [now right|exact Hp].
      * intros H. exists e, st. split; [now left|now apply iteration_events].
    + unfold loop_trace. rewrite (loop_not_running _ _ Hr). simpl. tauto.
Qed.

(** ** The two gates *)

(** C2. A captured segment of at most 8000 bytes is rejected by the size
    gate: the pass that captured it never spawns the transcription engine
    and hands no transcription record to the socket. As every pass has one
    segment, the engine runs only for a segment of more than 8000 bytes. *)
Theorem small_segment_never_transcribed (e : iter_env) (st : state) (size : Z) :
  file_size e st = Some size ->
  size <= 8000 ->
  isWorthTranscribing size = false /\
  Forall (fun ev => is_engine ev = false /\ is_content_send ev = false)
         (iteration_trace e st).
Proof.
  intros Hsize Hle. split.
  { unfold isWorthTranscribing. apply Z.ltb_ge. exact Hle. }
  apply List.Forall_forall. intros ev Hin.
  destruct (iteration_events e st ev Hin); simpl; auto;
    match goal with
    | H : file_size e st = Some _ |- _ => rewrite Hsize in H; inversion H; lia
    end.
Qed.

Lemma small_segment_never_transcribed_witness :
  isWorthTranscribing 500 = false /\
  Forall (fun ev => is_engine ev = false /\ is_content_send ev = false)
         (iteration_trace
            (pass_at 1 (SoxCompleted 0 (Some 500)) hello_world true true)
            connected_streamer).
Proof.
  apply (small_segment_never_transcribed
           (pass_at 1 (SoxCompleted 0 (Some 500)) hello_world true true)
           connected_streamer 500).
  - reflexivity.
  - lia.
Defined.

(** The converse reading of the size gate: an engine run or a content send
    in a pass means that sox exited with 0 and left more than 8000 bytes. *)
Lemma engine_needs_large_segment (e : iter_env) (st : state) (ev : event) :
  In ev (iteration_trace e st) ->
  is_engine ev = true \/ is_content_send ev = true ->
  exists w size,
    sox e = SoxCompleted 0 w /\ file_size e st = Some size /\ 8000 < size.
Proof.
  intros Hin Hev.
  destruct (iteration_events e st ev Hin); simpl in Hev;
    try (destruct Hev; discriminate); eauto.
Qed.

(** A pass whose transcription is short hands no transcription to the
    socket. *)
Lemma short_text_pass (e : iter_env) (st : state) :
  len (strip (transcription_of (engine e))) <= 2 ->
  Forall (fun ev => is_content_send ev = false) (iteration_trace e st).
Proof.
  intros Hle. apply List.Forall_forall. intros ev Hin.
  destruct (iteration_events e st ev Hin); simpl; auto. lia.
Qed.

(** C3. A transcription whose trimmed length is at most 2 (the empty one
    included) is rejected by the text gate: the pass hands no transcription
    record to the socket. A record is sent only for a longer text. *)
Theorem short_text_never_sent (e : iter_env) (st : state) :
  len (strip (transcription_of (engine e))) <= 2 ->
  isMeaningfulText (transcription_of (engine e)) = false /\
  Forall (fun ev => is_content_send ev = false) (iteration_trace e st).
Proof.
  intros Hle. split; [|now apply short_text_pass].
  destruct (isMeaningfulText _) eqn:Hm; [|reflexivity].
  apply isMeaningfulText_iff in Hm. lia.
Qed.

Lemma short_text_never_sent_witness :
  isMeaningfulText
    (transcription_of (whisper_script (Segments [of_string " ok "]))) = false /\
  Forall (fun ev => is_content_send ev = false)
         (iteration_trace
            (pass_at 1 speech (whisper_script (Segments [of_string " ok "]))
                     true true)
            connected_streamer).
Proof.
  apply (short_text_never_sent
           (pass_at 1 speech (whisper_script (Segments [of_string " ok "]))
                    true true)
           connected_streamer).
  vm_compute. discriminate.
Defined.

(** The converse reading of the text gate. *)
Lemma content_send_needs_meaningful_text (e : iter_env) (st : state) (ev : event) :
  In ev (iteration_trace e st) ->
  is_content_send ev = true ->
  2 < len (strip (transcription_of (engine e))).
Proof.
  intros Hin Hev.
  destruct (iteration_events e st ev Hin); simpl in Hev;
    try discriminate; auto.
Qed.

(** ** The whole run *)

Lemma finally_cleanup_events (st : state) (ev : event) :
  In ev (snd (finally_cleanup st)) -> ev = EvClose \/ ev = EvRmtree.
Proof.
  unfold finally_cleanup.
  destruct (socket st); simpl; destruct (temp_dir_exists st); simpl;
    intuition auto.
Qed.

Lemma start_streaming_ready (envs : list iter_env) (st : state) :
  let st1 := loop_state envs (set_running true st) in
  start_streaming true true envs st
  = (fst (finally_cleanup (set_running false st1)),
     loop_trace envs (set_running true st)
       ++ snd (finally_cleanup (set_running false st1))).
Proof.
  unfold start_streaming, loop_state, loop_trace. simpl.
  destruct (record_and_process_audio envs (set_running true st)) as [[st1 tr] x].
  simpl. destruct (finally_cleanup (set_running false st1)). reflexivity.
Qed.

Lemma start_streaming_events (sr wr : bool) (envs : list iter_env) (st : state)
    (ev : event) :
  In ev (snd (start_streaming sr wr envs st)) ->
  In ev (loop_trace envs (set_running true st)) \/ ev = EvClose \/ ev = EvRmtree.
Proof.
  destruct sr; [|simpl; tauto]. destruct wr; [|simpl; tauto].
  rewrite start_streaming_ready. cbn [snd]. rewrite in_app_iff.
  intros [H|H]; [now left|right]. eapply finally_cleanup_events, H.
Qed.

(** The events of a run: those of the first connect, those of the loop,
    and the two of the shutdown. *)
Lemma main_events (w : run_env) (ev : event) :
  In ev (main_trace w) ->
  (exists r, ev = EvConnect r) \/ ev = EvClose \/ ev = EvSleep retry_delay
  \/ ev = EvRmtree
  \/ exists st, In ev (loop_trace (passes w) st).
Proof.
  unfold main_trace, main.
  pose proof (connect_attempts_events max_retries 0 (first_connect w)
                (init (start_time w)) ev) as Hc.
  fold (connect_to_nodejs (first_connect w) (init (start_time w))) in Hc.
  destruct (connect_to_nodejs (first_connect w) (init (start_time w)))
    as [[st tr] [[|]|]]; cbn [fst snd] in *; try (intros H; specialize (Hc H); tauto).
  pose proof (start_streaming_events (sox_ready w) (whisper_ready w) (passes w) st ev)
    as Hs.
  destruct (start_streaming (sox_ready w) (whisper_ready w) (passes w) st)
    as [st' tr']. cbn [fst snd] in *.
  rewrite in_app_iff. intros [H|H]; [specialize (Hc H); tauto|].
  destruct (Hs H) as [H'|[H'|H']]; eauto 6.
Qed.

(** ** The wire protocol *)

Lemma transcription_record_last (text : pystr) (ts : list N) (f : bool) :
  last (transcription_record text ts f) = Some 10%N.
Proof.
  unfold transcription_record, record_tail.
  rewrite !app_assoc. apply last_snoc.
Qed.

(** Every send of a pass carries one of the two records of the protocol. *)
Lemma pass_event_send (e : iter_env) (st : state) (data : list N) (ok : bool) :
  pass_event e st (EvSend data ok) ->
  (exists text now ts,
      wire (transcription_message text now true) = Some data /\
      encode_utf8 (of_string (frepr now)) = Some ts /\
      data = transcription_record text ts true)
  \/ (exists now ts,
        wire (keepalive_message now) = Some data /\
        data = keepalive_record ts).
Proof.
  inversion 1; subst.
  - left. exists (transcription_of (engine e)), (send_time e), ts.
    destruct (wire_transcription (transcription_of (engine e)) (send_time e) true)
      as (ts' & Hts' & Hw).
    assert (ts' = ts) as -> by congruence. auto.
  - right. exists (current_time e), ts.
    destruct (wire_keepalive (current_time e)) as (ts' & Hts' & Hw).
    assert (ts' = ts) as -> by congruence. auto.
Qed.

(** C7. Every transcription record a run hands to the socket is the UTF-8
    encoding of [json.dumps] of a message with the four keys [type],
    [text], [timestamp] and [isFinal] followed by one newline, and its
    [isFinal] is [true]: the bytes are those of [transcription_record]
    with [true], which end in the newline. *)
Theorem transcription_records_are_final (w : run_env) (data : list N) (ok : bool) :
  In (EvSend data ok) (main_trace w) ->
  is_transcription data = true ->
  exists text now ts,
    wire (transcription_message text now true) = Some data /\
    encode_utf8 (of_string (frepr now)) = Some ts /\
    data = transcription_record text ts true /\
    printable (encode_basestring_ascii text) /\
    last data = Some 10%N.
Proof.
  intros Hin Hkind.
  destruct (main_events w _ Hin) as [[r H]|[H|[H|[H|[st H]]]]]; try discriminate.
  destruct (loop_events _ _ _ H) as (e & st' & _ & Hp).
  destruct (pass_event_send _ _ _ _ Hp)
    as [(text & now & ts & Hw & Hts & ->)|(now & ts & _ & ->)].
  - exists text, now, ts. repeat split; auto.
    + apply encode_basestring_ascii_printable.
    + apply transcription_record_last.
  - rewrite is_transcription_keepalive in Hkind. discriminate.
Qed.

(** ** Reading traces: algebra *)

Lemma captures_app (a b : list event) :
  captures (a ++ b) = captures a ++ captures b.
Proof.
  induction a as [|ev a IH]; simpl; [reflexivity|].
  destruct ev; simpl; rewrite IH; reflexivity.
Qed.

Lemma artifacts_app (a b : list event) (fs : gset nat) :
  artifacts (a ++ b) fs = artifacts b (artifacts a fs).
Proof.
  revert fs. induction a as [|ev a IH]; intros fs; simpl; [reflexivity|].
  destruct ev as [| | |seg [w|]| | | | |]; simpl; apply IH.
Qed.

Lemma quiet_captures (a : list event) :
  Forall (fun ev => quiet ev = true) a -> captures a = [].
Proof.
  induction 1 as [|ev a Hq _ IH]; simpl; [reflexivity|].
  destruct ev; simpl in *; try discriminate; exact IH.
Qed.

Lemma quiet_deliveries (cur : option nat) (a b : list event) :
  Forall (fun ev => quiet ev = true) a ->
  deliveries cur (a ++ b) = deliveries cur b.
Proof.
  induction 1 as [|ev a Hq _ IH]; simpl; [reflexivity|].
  destruct ev; simpl in *; try discriminate; try exact IH.
  destruct (is_transcription data); [discriminate|exact IH].
Qed.

Lemma calm_quiet (a : list event) :
  Forall (fun ev => calm ev = true) a -> Forall (fun ev => quiet ev = true) a.
Proof. apply List.Forall_impl. intros [] H; simpl in *; congruence. Qed.

Lemma calm_artifacts (a b : list event) (fs : gset nat) :
  Forall (fun ev => calm ev = true) a -> artifacts (a ++ b) fs = artifacts b fs.
Proof.
  induction 1 as [|ev a Hq _ IH]; simpl; [reflexivity|].
  destruct ev; simpl in *; try discriminate; exact IH.
Qed.

Lemma Forall_calm_app (a b : list event) :
  Forall (fun ev => calm ev = true) a ->
  Forall (fun ev => calm ev = true) b ->
  Forall (fun ev => calm ev = true) (a ++ b).
Proof. apply Forall_app_2. Qed.

Lemma calm_heartbeat (e : iter_env) (st : state) :
  Forall (fun ev => calm ev = true) (snd (heartbeat e st)).
Proof.
  destruct (heartbeat_spec e st) as [[_ H]|(s & ts & _ & _ & _ & H)]; rewrite H;
    repeat constructor.
Qed.

Lemma calm_connect (todo attempt : nat) (net : nat -> conn_outcome) (st : state) :
  Forall (fun ev => calm ev = true)
         (snd (fst (connect_attempts todo attempt net st))).
Proof.
  apply List.Forall_forall. intros ev H.
  apply connect_attempts_events in H as [[r ->]|[->| ->]]; reflexivity.
Qed.

Lemma calm_transcribe (seg : nat) (r : run_outcome) :
  Forall (fun ev => calm ev = true) (fst (transcribe_audio_chunk seg r)).
Proof.
  rewrite transcribe_audio_chunk_trace. destruct r; repeat constructor.
Qed.

(** The order of the events of a pass: the capture, then what precedes the
    content send, then at most one content send, then what precedes the
    removal of the artifact, the removal, and the rest. *)
Lemma iteration_trace_shape (e : iter_env) (st : state) :
  exists pre content mid fin,
    iteration_trace e st
    = EvSox (segment_counter st) (sox_written (sox e))
        :: pre ++ content ++ mid ++ removal e st ++ fin /\
    Forall (fun ev => calm ev = true) pre /\
    Forall (fun ev => calm ev = true) mid /\
    Forall (fun ev => calm ev = true) fin /\
    (content = [] \/
     exists text ts ok, content = [EvSend (transcription_record text ts true) ok]).
Proof.
  unfold iteration_trace, removal, file_size.
  destruct (sox e) as [rc w|w|w] eqn:Hsox.
  - rewrite (iteration_completed e st rc w Hsox). cbn [fst snd sox_written].
    rewrite cleanup_trace.
    destruct (heartbeat_fields e (capture e st)) as (_ & _ & _ & _ & ->).
    pose proof (calm_heartbeat e (capture e st)) as Hhb.
    set (hb := snd (heartbeat e (capture e st))) in *.
    set (cl := match files (capture e st) !! segment_counter st with
               | Some _ => [EvUnlink (segment_counter st)]
               | None => []
               end).
    assert (Hfin : Forall (fun ev => calm ev = true) [EvSleep (1 # 5)])
      by repeat constructor.
    rewrite process_segment_spec.
    destruct (rc =? 0); [|exists [], [], hb, [EvSleep (1 # 5)]; auto 6].
    destruct (files (capture e st) !! segment_counter st) as [size|];
      [|exists [], [], hb, [EvSleep (1 # 5)]; auto 6].
    destruct (8000 <? size); [|exists [], [], hb, [EvSleep (1 # 5)]; auto 6].
    exists (fst (transcribe_audio_chunk (segment_counter st) (engine e))).
    destruct (isMeaningfulText (transcription_of (engine e))).
    + destruct (send_transcription_spec (transcription_of (engine e)) true
                  (send_time e) (send_ok e) (capture e st))
        as [[_ Hs]|(s & ts & _ & _ & Hs)]; rewrite Hs; cbn [fst].
      * exists [], hb, [EvSleep (1 # 5)]. rewrite <- app_assoc.
        repeat split; auto using calm_transcribe.
      * eexists _, hb, [EvSleep (1 # 5)]. rewrite <- app_assoc.
        repeat split; eauto using calm_transcribe.
    + exists [], hb, [EvSleep (1 # 5)]. rewrite <- app_assoc.
      repeat split; auto using calm_transcribe.
  - rewrite (iteration_timeout e st w Hsox). cbn [fst snd sox_written].
    rewrite cleanup_trace.
    exists [], [], [], []. rewrite app_nil_r. repeat split; auto.
  - rewrite (iteration_fault e st w Hsox). cbn zeta. rewrite cleanup_trace.
    destruct (connection_lost st); cbn [fst snd sox_written].
    + eexists [], [], [], _. repeat split; auto.
      apply Forall_calm_app; [apply calm_connect|].
      destruct (snd (connect_to_nodejs _ _)); repeat constructor.
    + eexists [], [], [], _. repeat split; auto; repeat constructor.
Qed.

(** ** What a pass leaves *)

Lemma capture_files (e : iter_env) (st : state) :
  delete (segment_counter st) (files (capture e st))
  = delete (segment_counter st) (files st).
Proof.
  unfold capture, sox_writes. simpl.
  destruct (sox_written (sox e)); [apply delete_insert_eq|reflexivity].
Qed.

(** A pass increments the counter, leaves [running] alone, and removes the
    artifact it made: whatever way it ends, the files it leaves are those
    it found, less [audio_seg.wav]. *)
Lemma iteration_fields (e : iter_env) (st : state) :
  let st' := iteration_state e st in
  segment_counter st' = S (segment_counter st) /\
  running st' = running st /\
  temp_dir_exists st' = temp_dir_exists st /\
  files st' = delete (segment_counter st) (files st).
Proof.
  unfold iteration_state.
  pose proof (capture_fields e st) as (_ & Hr & Hc & _ & Ht).
  pose proof (capture_files e st) as Hf.
  destruct (sox e) as [rc w|w|w] eqn:Hsox.
  - rewrite (iteration_completed e st rc w Hsox). cbn [fst snd].
    pose proof (heartbeat_fields e (capture e st)) as (_ & Hr2 & Hc2 & Ht2 & Hf2).
    pose proof (cleanup_fields (segment_counter st) (fst (heartbeat e (capture e st))))
      as (_ & Hr3 & Hc3 & _ & Ht3).
    cbn zeta in *. rewrite cleanup_files. repeat split; congruence.
  - rewrite (iteration_timeout e st w Hsox). cbn [fst snd].
    pose proof (cleanup_fields (segment_counter st) (capture e st))
      as (_ & Hr3 & Hc3 & _ & Ht3).
    cbn zeta in *. rewrite cleanup_files. repeat split; congruence.
  - rewrite (iteration_fault e st w Hsox). cbn zeta.
    pose proof (cleanup_fields (segment_counter st) (capture e st))
      as (_ & Hr3 & Hc3 & _ & Ht3).
    pose proof (cleanup_files (segment_counter st) (capture e st)) as Hf3.
    cbn zeta in *.
    destruct (connection_lost st); cbn [fst snd].
    + pose proof (connect_attempts_fields max_retries 0 (reconnect e)
                    (fst (cleanup (segment_counter st) (capture e st))))
        as (Hr4 & Hc4 & _ & Ht4 & Hf4).
      cbn zeta in *. unfold connect_to_nodejs. repeat split; congruence.
    + repeat split; congruence.
Qed.

Lemma after_pass_fields (e : iter_env) (st : state) :
  segment_counter (after_pass e st) = S (segment_counter st) /\
  files (after_pass e st) = delete (segment_counter st) (files st) /\
  temp_dir_exists (after_pass e st) = temp_dir_exists st.
Proof.
  pose proof (iteration_fields e st) as (Hc & _ & Ht & Hf). cbn zeta in *.
  unfold after_pass. destruct (stop_requested e); simpl; auto.
Qed.

(** ** Order of capture and order of delivery *)

Lemma StronglySorted_seq (a n : nat) : StronglySorted lt (seq a n).
Proof.
  revert a. induction n as [|n IH]; intros a; simpl; constructor; [apply IH|].
  apply List.Forall_forall. intros x Hx. apply in_seq in Hx. lia.
Qed.

Lemma sublist_StronglySorted {A} (R : A -> A -> Prop) (l1 l2 : list A) :
  sublist l1 l2 -> StronglySorted R l2 -> StronglySorted R l1.
Proof.
  induction 1 as [|x l1 l2 Hsub IH|x l1 l2 Hsub IH]; intros Hs.
  - constructor.
  - apply StronglySorted_inv in Hs as [Hs Hx]. constructor; [auto|].
    rewrite List.Forall_forall in *. intros y Hy. apply Hx.
    apply list_elem_of_In. eapply elem_of_sublist; [|exact Hsub].
    now apply list_elem_of_In.
  - apply StronglySorted_inv in Hs as [Hs _]. auto.
Qed.

(** The captures and the deliveries of a pass followed by [tl]. *)
Lemma iteration_order (e : iter_env) (st : state) (cur : option nat)
    (tl : list event) :
  captures (iteration_trace e st ++ tl) = segment_counter st :: captures tl /\
  exists d,
    (d = [] \/ d = [segment_counter st]) /\
    deliveries cur (iteration_trace e st ++ tl)
    = d ++ deliveries (Some (segment_counter st)) tl.
Proof.
  destruct (iteration_trace_shape e st)
    as (pre & content & mid & fin & -> & Hpre%calm_quiet & Hmid & Hfin & Hcontent).
  assert (Hpost : Forall (fun ev => quiet ev = true) (mid ++ removal e st ++ fin)).
  { apply Forall_app_2; [now apply calm_quiet|].
    apply Forall_app_2; [|now apply calm_quiet].
    unfold removal. destruct (file_size e st); repeat constructor. }
  set (post := mid ++ removal e st ++ fin) in *.
  split.
  - cbn [app captures]. rewrite !captures_app.
    rewrite (quiet_captures _ Hpre), (quiet_captures _ Hpost).
    destruct Hcontent as [->|(text & ts & ok & ->)]; reflexivity.
  - cbn [app deliveries]. rewrite <- !app_assoc.
    rewrite (quiet_deliveries _ _ _ Hpre).
    destruct Hcontent as [->|(text & ts & ok & ->)].
    + exists []. split; [auto|]. cbn [app].
      now rewrite (quiet_deliveries _ _ _ Hpost).
    + exists [segment_counter st]. split; [auto|].
      cbn [app deliveries]. rewrite is_transcription_record.
      now rewrite (quiet_deliveries _ _ _ Hpost).
Qed.

(** The loop captures consecutive segment numbers, and delivers a
    subsequence of what it captures, in the same order. *)
Lemma loop_order (envs : list iter_env) (st : state) (cur : option nat) :
  exists n,
    captures (loop_trace envs st) = seq (segment_counter st) n /\
    sublist (deliveries cur (loop_trace envs st)) (captures (loop_trace envs st)).
Proof.
  revert st cur. induction envs as [|e envs IH]; intros st cur.
  - exists 0%nat. unfold loop_trace. simpl. split; [reflexivity|constructor].
  - destruct (running st) eqn:Hr.
    2:{ exists 0%nat. unfold loop_trace. rewrite (loop_not_running _ _ Hr).
        simpl. split; [reflexivity|constructor]. }
    unfold loop_trace. rewrite (loop_cons _ _ _ Hr).
    destruct (snd (iteration e st)); cbn [fst snd].
    + destruct (IH (after_pass e st) (Some (segment_counter st)))
        as (n & Hcap & Hsub).
      destruct (after_pass_fields e st) as (Hc & _).
      destruct (iteration_order e st cur (loop_trace envs (after_pass e st)))
        as (Hcap1 & d & Hd & Hdel).
      exists (S n). rewrite Hcap1, Hdel, Hcap, Hc. split; [reflexivity|].
      rewrite Hcap, Hc in Hsub.
      destruct Hd as [->| ->]; cbn [app]; now constructor.
    + destruct (iteration_order e st cur []) as (Hcap1 & d & Hd & Hdel).
      rewrite app_nil_r in *. exists 1%nat. rewrite Hcap1, Hdel.
      split; [reflexivity|]. simpl. rewrite app_nil_r.
      destruct Hd as [->| ->]; repeat constructor.
Qed.

(** ** Artifacts *)

Lemma removal_spec (e : iter_env) (st : state) :
  removal e st
  = match sox_written (sox e), files st !! segment_counter st with
    | None, None => []
    | _, _ => [EvUnlink (segment_counter st)]
    end.
Proof.
  unfold removal, file_size, capture, sox_writes. cbn [files set_files].
  destruct (sox_written (sox e)); [now rewrite lookup_insert_eq|].
  destruct (files st !! segment_counter st); reflexivity.
Qed.

(** What the trace of a pass does to a directory that held [fs]: the
    artifact of the pass is not there afterwards, the rest is untouched. *)
Lemma iteration_artifacts_from (e : iter_env) (st : state) (tl : list event)
    (fs : gset nat) :
  artifacts (iteration_trace e st ++ tl) fs
  = artifacts tl (match removal e st with
                  | [] => fs
                  | _ => fs ∖ {[segment_counter st]}
                  end).
Proof.
  destruct (iteration_trace_shape e st)
    as (pre & content & mid & fin & -> & Hpre & Hmid & Hfin & Hcontent).
  assert (Hskip : forall fs',
             artifacts ((pre ++ content ++ mid ++ removal e st ++ fin) ++ tl) fs'
             = artifacts tl (artifacts (removal e st) fs')).
  { intros fs'. rewrite <- !app_assoc. rewrite (calm_artifacts _ _ _ Hpre).
    assert (Hc : artifacts (content ++ mid ++ removal e st ++ fin ++ tl) fs'
                 = artifacts (mid ++ removal e st ++ fin ++ tl) fs')
      by (destruct Hcontent as [->|(text & ts & ok & ->)]; reflexivity).
    rewrite Hc, (calm_artifacts _ _ _ Hmid), artifacts_app.
    now rewrite (calm_artifacts _ _ _ Hfin). }
  rewrite removal_spec in *.
  destruct (sox_written (sox e)) as [size|]; cbn [app artifacts];
    rewrite Hskip.
  - simpl. f_equal. set_solver.
  - destruct (files st !! segment_counter st); reflexivity.
Qed.

(** The trace of a pass tells what the pass does to the directory. *)
Lemma iteration_artifacts (e : iter_env) (st : state) (tl : list event) :
  artifacts (iteration_trace e st ++ tl) (dom (files st))
  = artifacts tl (dom (files (iteration_state e st))).
Proof.
  destruct (iteration_fields e st) as (_ & _ & _ & Hf). cbn zeta in Hf.
  rewrite Hf, dom_delete_L, iteration_artifacts_from, removal_spec.
  destruct (sox_written (sox e)); [reflexivity|].
  destruct (files st !! segment_counter st) eqn:Hl; [reflexivity|].
  apply not_elem_of_dom in Hl. f_equal. set_solver.
Qed.

(** No segment is in flight at the end of a pass. *)
Lemma in_flight_iteration (e : iter_env) (st : state) :
  in_flight (iteration_trace e st) = ∅.
Proof.
  unfold in_flight. rewrite <- (app_nil_r (iteration_trace e st)).
  rewrite iteration_artifacts_from. simpl.
  destruct (removal e st); set_solver.
Qed.

Lemma artifacts_bound (seg : nat) (tr : list event) (fs : gset nat) :
  Forall (fun ev => forall s w, ev = EvSox s (Some w) -> s = seg) tr ->
  artifacts tr fs ⊆ {[seg]} ∪ fs.
Proof.
  intros H. revert fs. induction H as [|ev tr Hev _ IH]; intros fs; simpl.
  - set_solver.
  - destruct ev as [| | |s [w|]| | | |s|]; try apply IH.
    + rewrite (Hev s w eq_refl). specialize (IH ({[seg]} ∪ fs)). set_solver.
    + specialize (IH (fs ∖ {[s]})). set_solver.
    + specialize (IH ∅). set_solver.
Qed.

Lemma artifacts_no_capture (tr : list event) (fs : gset nat) :
  Forall (fun ev => no_capture ev = true) tr -> artifacts tr fs ⊆ fs.
Proof.
  intros H. revert fs. induction H as [|ev tr Hev _ IH]; intros fs; simpl.
  - set_solver.
  - destruct ev as [| | |s w| | | |s|]; try apply IH; try discriminate.
    + specialize (IH (fs ∖ {[s]})). set_solver.
    + specialize (IH ∅). set_solver.
Qed.

Lemma one_at_a_time_no_capture (tr : list event) :
  Forall (fun ev => no_capture ev = true) tr -> one_at_a_time tr.
Proof.
  intros H p q ->. apply Forall_app in H as [Hp _].
  pose proof (artifacts_no_capture p ∅ Hp) as Hs. unfold in_flight.
  assert (artifacts p ∅ = ∅) as -> by set_solver.
  rewrite size_empty. lia.
Qed.

Lemma one_at_a_time_nil : one_at_a_time [].
Proof. apply one_at_a_time_no_capture. constructor. Qed.

Lemma one_at_a_time_app (a b : list event) :
  one_at_a_time a -> in_flight a = ∅ -> one_at_a_time b ->
  one_at_a_time (a ++ b).
Proof.
  intros Ha Hend Hb p q Heq.
  apply app_eq_app in Heq as [r [[-> ->]|[-> ->]]].
  - eapply Ha. reflexivity.
  - unfold in_flight. rewrite artifacts_app. fold (in_flight a).
    rewrite Hend. eapply Hb. reflexivity.
Qed.

Lemma one_at_a_time_iteration (e : iter_env) (st : state) :
  one_at_a_time (iteration_trace e st).
Proof.
  intros p q Heq.
  assert (H : artifacts p ∅ ⊆ {[segment_counter st]} ∪ ∅).
  { apply artifacts_bound. apply List.Forall_forall. intros ev Hin s w ->.
    assert (Hp : pass_event e st (EvSox s (Some w))).
    { apply iteration_events. rewrite Heq. apply in_or_app. now left. }
    inversion Hp. reflexivity. }
  unfold in_flight.
  transitivity (size ({[segment_counter st]} ∪ ∅ : gset nat)).
  - apply subseteq_size. exact H.
  - rewrite union_empty_r_L, size_singleton. lia.
Qed.

(** The loop only removes files, and its trace tells which. *)
Lemma loop_artifacts (envs : list iter_env) (st : state) :
  artifacts (loop_trace envs st) (dom (files st))
  = dom (files (loop_state envs st)) /\
  files (loop_state envs st) ⊆ files st.
Proof.
  revert st. induction envs as [|e envs IH]; intros st.
  - unfold loop_trace, loop_state. simpl. auto.
  - destruct (running st) eqn:Hr.
    2:{ unfold loop_trace, loop_state. rewrite (loop_not_running _ _ Hr).
        simpl. auto. }
    unfold loop_trace, loop_state. rewrite (loop_cons _ _ _ Hr).
    destruct (iteration_fields e st) as (_ & _ & _ & Hf). cbn zeta in Hf.
    destruct (after_pass_fields e st) as (_ & Hf' & _).
    destruct (snd (iteration e st)); cbn [fst snd].
    + destruct (IH (after_pass e st)) as [IH1 IH2]. split.
      * rewrite iteration_artifacts.
        replace (files (iteration_state e st)) with (files (after_pass e st))
          by congruence.
        exact IH1.
      * etransitivity; [exact IH2|]. rewrite Hf'. apply delete_subseteq.
    + split.
      * rewrite <- (app_nil_r (iteration_trace e st)).
        rewrite iteration_artifacts. reflexivity.
      * rewrite Hf. apply delete_subseteq.
Qed.

Lemma loop_one_at_a_time (envs : list iter_env) (st : state) :
  one_at_a_time (loop_trace envs st) /\ in_flight (loop_trace envs st) = ∅.
Proof.
  revert st. induction envs as [|e envs IH]; intros st.
  - split; [apply one_at_a_time_nil|reflexivity].
  - destruct (running st) eqn:Hr.
    2:{ unfold loop_trace. rewrite (loop_not_running _ _ Hr).
        split; [apply one_at_a_time_nil|reflexivity]. }
    unfold loop_trace. rewrite (loop_cons _ _ _ Hr).
    destruct (snd (iteration e st)); cbn [fst snd].
    + destruct (IH (after_pass e st)) as [IH1 IH2]. split.
      * apply one_at_a_time_app;
          auto using one_at_a_time_iteration, in_flight_iteration.
      * unfold in_flight. rewrite artifacts_app.
        fold (in_flight (iteration_trace e st)).
        rewrite in_flight_iteration. exact IH2.
    + split; [apply one_at_a_time_iteration|apply in_flight_iteration].
Qed.

Lemma quiet_deliveries_r (cur : option nat) (a b : list event) :
  Forall (fun ev => quiet ev = true) b ->
  deliveries cur (a ++ b) = deliveries cur a.
Proof.
  intros Hb. revert cur. induction a as [|ev a IH]; intros cur.
  - rewrite <- (app_nil_r ([] ++ b)). simpl.
    rewrite (quiet_deliveries cur b [] Hb). reflexivity.
  - destruct ev; simpl; rewrite ?IH; reflexivity.
Qed.

(** A run is a first connect, then the loop, then the shutdown. The loop
    starts in an empty directory, with the counter at 0. *)
Lemma main_trace_split (w : run_env) :
  exists c envs st f,
    main_trace w = c ++ loop_trace envs st ++ f /\
    segment_counter st = 0%nat /\ files st = ∅ /\
    Forall (fun ev => calm ev = true) c /\
    Forall (fun ev => ev = EvClose \/ ev = EvRmtree) f.
Proof.
  unfold main_trace, main.
  pose proof (calm_connect max_retries 0 (first_connect w) (init (start_time w)))
    as Hc.
  pose proof (connect_attempts_fields max_retries 0 (first_connect w)
                (init (start_time w))) as (_ & Hcnt & _ & _ & Hfs).
  fold (connect_to_nodejs (first_connect w) (init (start_time w))) in *.
  destruct (connect_to_nodejs (first_connect w) (init (start_time w)))
    as [[st tr] r]. cbn [fst snd] in *.
  assert (Hnone : exists c envs st' f,
             tr = c ++ loop_trace envs st' ++ f /\
             segment_counter st' = 0%nat /\ files st' = ∅ /\
             Forall (fun ev => calm ev = true) c /\
             Forall (fun ev => ev = EvClose \/ ev = EvRmtree) f).
  { exists tr, [], st, []. unfold loop_trace. simpl. rewrite app_nil_r. auto. }
  destruct r as [[|]|]; cbn [fst snd]; try exact Hnone.
  destruct (sox_ready w) eqn:Hs; [|simpl; rewrite app_nil_r; exact Hnone].
  destruct (whisper_ready w) eqn:Hw; [|simpl; rewrite app_nil_r; exact Hnone].
  rewrite start_streaming_ready. cbn [fst snd].
  eexists tr, (passes w), (set_running true st), _.
  split; [reflexivity|]. repeat split; auto.
  apply List.Forall_forall. intros ev. apply finally_cleanup_events.
Qed.

(** C8. A run processes its segments one at a time and in order: the
    segment numbers it captures are 0, 1, 2, ... (strictly increasing); the
    transcriptions it hands to the socket belong to a subsequence of the
    captured segments, in the order of capture, each segment at most once;
    and at every moment of the run at most one segment is in flight (its
    artifact made and not yet removed). *)
Theorem segments_processed_in_order (w : run_env) :
  let tr := main_trace w in
  (exists n, captures tr = seq 0 n) /\
  StronglySorted lt (captures tr) /\
  sublist (deliveries None tr) (captures tr) /\
  StronglySorted lt (deliveries None tr) /\
  one_at_a_time tr.
Proof.
  cbn zeta.
  destruct (main_trace_split w) as (c & envs & st & f & -> & Hcnt & _ & Hc & Hf).
  assert (Hfq : Forall (fun ev => quiet ev = true) f).
  { eapply List.Forall_impl; [|exact Hf]. intros ev [->| ->]; reflexivity. }
  assert (Hfn : Forall (fun ev => no_capture ev = true) f).
  { eapply List.Forall_impl; [|exact Hf]. intros ev [->| ->]; reflexivity. }
  assert (Hcn : Forall (fun ev => no_capture ev = true) c).
  { eapply List.Forall_impl; [|exact Hc]. intros []; simpl; congruence. }
  destruct (loop_order envs st None) as (n & Hcap & Hsub).
  assert (Ecap : captures (c ++ loop_trace envs st ++ f) = seq 0 n).
  { rewrite !captures_app, (quiet_captures _ (calm_quiet _ Hc)),
      (quiet_captures _ Hfq), app_nil_r, Hcap, Hcnt. reflexivity. }
  assert (Edel : deliveries None (c ++ loop_trace envs st ++ f)
                 = deliveries None (loop_trace envs st)).
  { rewrite (quiet_deliveries _ _ _ (calm_quiet _ Hc)).
    apply quiet_deliveries_r, Hfq. }
  rewrite Ecap, Edel. rewrite Hcap, Hcnt in Hsub.
  repeat split.
  - eauto.
  - apply StronglySorted_seq.
  - exact Hsub.
  - eapply sublist_StronglySorted; [exact Hsub|apply StronglySorted_seq].
  - destruct (loop_one_at_a_time envs st) as [Hl Hend].
    apply one_at_a_time_app.
    + now apply one_at_a_time_no_capture.
    + pose proof (artifacts_no_capture c ∅ Hcn). unfold in_flight. set_solver.
    + apply one_at_a_time_app; auto. now apply one_at_a_time_no_capture.
Qed.

(** ** Cleanup *)

Lemma loop_temp_dir (envs : list iter_env) (st : state) :
  temp_dir_exists (loop_state envs st) = temp_dir_exists st.
Proof.
  revert st. induction envs as [|e envs IH]; intros st.
  - reflexivity.
  - destruct (running st) eqn:Hr.
    2:{ unfold loop_state. now rewrite (loop_not_running _ _ Hr). }
    unfold loop_state. rewrite (loop_cons _ _ _ Hr).
    destruct (after_pass_fields e st) as (_ & _ & Ht).
    destruct (iteration_fields e st) as (_ & _ & Ht' & _).
    destruct (snd (iteration e st)); cbn [fst snd].
    + fold (loop_state envs (after_pass e st)). now rewrite IH.
    + exact Ht'.
Qed.

Lemma finally_cleanup_spec (st : state) :
  temp_dir_exists (fst (finally_cleanup st)) = false /\
  (temp_dir_exists st = true ->
   files (fst (finally_cleanup st)) = ∅ /\
   last (snd (finally_cleanup st)) = Some EvRmtree).
Proof.
  unfold finally_cleanup.
  destruct (socket st); simpl; destruct (temp_dir_exists st) eqn:Ht; simpl;
    auto; split; auto; discriminate.
Qed.

(** C6. Whatever way a pass of the loop ends (the segment sent, rejected by
    a gate, the recording timed out or failed, the transcription timed out
    or failed, the send failed, the reconnect raised), the files it leaves
    are those it found less its own artifact, which is therefore gone, and
    its trace leaves no segment in flight; the loop as a whole only removes
    files; and the shutdown of [start_streaming] leaves no temporary
    directory (it removes the one it finds, last of all). *)
Theorem artifacts_always_removed (e : iter_env) (envs : list iter_env)
    (st : state) :
  files (iteration_state e st) = delete (segment_counter st) (files st) /\
  files (iteration_state e st) !! segment_counter st = None /\
  in_flight (iteration_trace e st) = ∅ /\
  files (loop_state envs st) ⊆ files st /\
  temp_dir_exists (fst (start_streaming true true envs st)) = false /\
  (temp_dir_exists st = true ->
   files (fst (start_streaming true true envs st)) = ∅ /\
   last (snd (start_streaming true true envs st)) = Some EvRmtree).
Proof.
  destruct (iteration_fields e st) as (_ & _ & _ & Hf). cbn zeta in Hf.
  split; [exact Hf|]. split; [rewrite Hf; apply lookup_delete_eq|].
  split; [apply in_flight_iteration|].
  split; [apply loop_artifacts|].
  rewrite start_streaming_ready. cbn [fst snd].
  set (st1 := set_running false (loop_state envs (set_running true st))).
  destruct (finally_cleanup_spec st1) as [H1 H2].
  split; [exact H1|]. intros Ht.
  assert (Ht1 : temp_dir_exists st1 = true).
  { unfold st1. simpl. rewrite loop_temp_dir. exact Ht. }
  destruct (H2 Ht1) as [H3 H4]. split; [exact H3|].
  destruct (snd (finally_cleanup st1)) as [|ev tl] eqn:Hfin; [discriminate|].
  rewrite <- H4. apply last_app_cons.
Qed.

(** ** Heartbeats do not steer the loop *)

Lemma set_last_heartbeat_id (st : state) :
  set_last_heartbeat (last_heartbeat st) st = st.
Proof. destruct st; reflexivity. Qed.

Lemma without_heartbeats_app (a b : list event) :
  without_heartbeats (a ++ b) = without_heartbeats a ++ without_heartbeats b.
Proof. apply List.filter_app. Qed.

Lemma heartbeat_apart_spec (e : iter_env) (b : bool) (t : pyfloat) (st : state) :
  exists t',
    fst (heartbeat (set_heartbeat_ok b e) (set_last_heartbeat t st))
    = set_last_heartbeat t' st /\
    without_heartbeats (snd (heartbeat (set_heartbeat_ok b e)
                               (set_last_heartbeat t st))) = [].
Proof.
  destruct (heartbeat_spec (set_heartbeat_ok b e) (set_last_heartbeat t st))
    as [[_ H]|(s & ts & _ & _ & _ & H)]; rewrite H; cbn [fst snd].
  - exists t. auto.
  - destruct (sock_send s _); [exists (current_time e)|exists t]; auto.
Qed.

Lemma cleanup_apart (seg : nat) (t : pyfloat) (st : state) :
  cleanup seg (set_last_heartbeat t st)
  = (set_last_heartbeat t (fst (cleanup seg st)), snd (cleanup seg st)).
Proof. unfold cleanup. simpl. destruct (files st !! seg); reflexivity. Qed.

Lemma connect_attempts_apart (todo attempt : nat) (net : nat -> conn_outcome)
    (t : pyfloat) (st : state) :
  connect_attempts todo attempt net (set_last_heartbeat t st)
  = (set_last_heartbeat t (fst (fst (connect_attempts todo attempt net st))),
     snd (fst (connect_attempts todo attempt net st)),
     snd (connect_attempts todo attempt net st)).
Proof.
  revert attempt st. induction todo as [|todo IH]; intros attempt st; simpl;
    [reflexivity|].
  destruct (net attempt); try reflexivity.
  change (set_socket (Some Closed) (set_last_heartbeat t st))
    with (set_last_heartbeat t (set_socket (Some Closed) st)).
  rewrite IH.
  destruct (connect_attempts todo (S attempt) net (set_socket (Some Closed) st))
    as [[st' tr] r]. reflexivity.
Qed.

(** A pass in two runs that differ only in the fate of their heartbeats:
    the same outcome, the same events but for the heartbeat sends, and
    states that differ only in the time of the last heartbeat. *)
Lemma iteration_apart (e : iter_env) (b : bool) (t : pyfloat) (st : state) :
  let e' := set_heartbeat_ok b e in
  let st' := set_last_heartbeat t st in
  snd (iteration e' st') = snd (iteration e st) /\
  without_heartbeats (iteration_trace e' st')
  = without_heartbeats (iteration_trace e st) /\
  exists t', iteration_state e' st' = set_last_heartbeat t' (iteration_state e st).
Proof.
  cbn zeta. unfold iteration_trace, iteration_state.
  assert (Hcap : forall b' t', capture (set_heartbeat_ok b' e) (set_last_heartbeat t' st)
                               = set_last_heartbeat t' (capture e st))
    by reflexivity.
  destruct (sox e) as [rc w|w|w] eqn:Hsox.
  - rewrite (iteration_completed (set_heartbeat_ok b e) _ rc w Hsox).
    rewrite (iteration_completed e st rc w Hsox). cbn [fst snd].
    rewrite Hcap.
    change (segment_counter (set_last_heartbeat t st)) with (segment_counter st).
    change (process_segment (segment_counter st) rc (set_heartbeat_ok b e)
              (set_last_heartbeat t (capture e st)))
      with (process_segment (segment_counter st) rc e (capture e st)).
    destruct (heartbeat_apart_spec e b t (capture e st)) as (t1 & -> & Hh1).
    destruct (heartbeat_apart_spec e (heartbeat_ok e) (last_heartbeat (capture e st))
                (capture e st)) as (t2 & Hs2 & Hh2).
    replace (set_heartbeat_ok (heartbeat_ok e) e) with e in * by (destruct e; reflexivity).
    rewrite set_last_heartbeat_id in *. rewrite Hs2.
    rewrite !cleanup_apart. cbn [fst snd].
    split; [reflexivity|]. split.
    + cbn [without_heartbeats List.filter].
      fold without_heartbeats. rewrite !without_heartbeats_app, Hh1, Hh2.
      reflexivity.
    + exists t1. destruct (cleanup (segment_counter st) (capture e st)).
      destruct s; reflexivity.
  - rewrite (iteration_timeout (set_heartbeat_ok b e) _ w Hsox).
    rewrite (iteration_timeout e st w Hsox). cbn [fst snd].
    rewrite Hcap, cleanup_apart. cbn [fst snd].
    repeat split; eauto.
  - rewrite (iteration_fault (set_heartbeat_ok b e) _ w Hsox).
    rewrite (iteration_fault e st w Hsox). cbn zeta.
    rewrite Hcap, cleanup_apart. cbn [fst snd].
    change (connection_lost (set_last_heartbeat t st)) with (connection_lost st).
    change (reconnect (set_heartbeat_ok b e)) with (reconnect e).
    change (segment_counter (set_last_heartbeat t st)) with (segment_counter st).
    destruct (connection_lost st); cbn [fst snd]; [|repeat split; eauto].
    unfold connect_to_nodejs. rewrite connect_attempts_apart. cbn [fst snd].
    repeat split; eauto.
Qed.

Lemma loop_apart (envs envs' : list iter_env) :
  Forall2 heartbeat_variant envs envs' ->
  forall (t : pyfloat) (st : state),
    let st' := set_last_heartbeat t st in
    loop_exit_of envs' st' = loop_exit_of envs st /\
    without_heartbeats (loop_trace envs' st')
    = without_heartbeats (loop_trace envs st) /\
    exists t', loop_state envs' st' = set_last_heartbeat t' (loop_state envs st).
Proof.
  induction 1 as [|e e' envs envs' He _ IH]; intros t st; cbn zeta.
  - unfold loop_exit_of, loop_trace, loop_state. simpl. eauto.
  - red in He. rewrite He.
    destruct (iteration_apart e (heartbeat_ok e') t st) as (Hr & Htr & t1 & Hst).
    cbn zeta in *.
    destruct (running st) eqn:Hrun.
    2:{ unfold loop_exit_of, loop_trace, loop_state.
        rewrite !loop_not_running by exact Hrun. simpl. eauto. }
    unfold loop_exit_of, loop_trace, loop_state.
    rewrite !loop_cons by exact Hrun. rewrite Hr.
    destruct (snd (iteration e st)); cbn [fst snd].
    + assert (Hafter : after_pass (set_heartbeat_ok (heartbeat_ok e') e)
                         (set_last_heartbeat t st)
                       = set_last_heartbeat t1 (after_pass e st)).
      { unfold after_pass. rewrite Hst. simpl.
        destruct (stop_requested e); reflexivity. }
      rewrite Hafter.
      destruct (IH t1 (after_pass e st)) as (Hx & Htr' & t2 & Hst').
      cbn zeta in *. repeat split.
      * exact Hx.
      * rewrite !without_heartbeats_app, Htr, Htr'. reflexivity.
      * exists t2. exact Hst'.
    + repeat split; eauto.
Qed.

(** C9. A heartbeat send that fails is swallowed. Take two runs of the loop
    from the same state that differ only in what happens to their heartbeat
    sends (in one they may all succeed, in the other fail): the loop ends
    the same way in both (no failure leaves it), [running] and the socket
    are the same at the end, and the two traces are the same once the
    heartbeat sends are taken out; in particular the transcriptions handed
    to the socket, in the same pass and in later ones, are the same. *)
Theorem heartbeat_failure_swallowed (envs envs' : list iter_env) (st : state) :
  Forall2 heartbeat_variant envs envs' ->
  loop_exit_of envs' st = loop_exit_of envs st /\
  without_heartbeats (loop_trace envs' st)
  = without_heartbeats (loop_trace envs st) /\
  running (loop_state envs' st) = running (loop_state envs st) /\
  socket (loop_state envs' st) = socket (loop_state envs st).
Proof.
  intros H.
  destruct (loop_apart envs envs' H (last_heartbeat st) st) as (Hx & Htr & t' & Hst).
  cbn zeta in *. rewrite set_last_heartbeat_id in *.
  rewrite Hx, Htr, Hst. auto.
Qed.

(** A pass whose recording call returns ends normally, whatever happens to
    its sends. *)
Lemma completed_pass_returns (e : iter_env) (st : state) (rc : Z) (w : option Z) :
  sox e = SoxCompleted rc w ->
  snd (iteration e st) = Return tt /\
  running (iteration_state e st) = running st /\
  socket (iteration_state e st) = socket st.
Proof.
  intros Hsox. destruct (iteration_fields e st) as (_ & Hr & _).
  split; [|split; [exact Hr|]].
  - rewrite (iteration_completed e st rc w Hsox). reflexivity.
  - unfold iteration_state. rewrite (iteration_completed e st rc w Hsox).
    cbn [fst snd].
    destruct (cleanup_fields (segment_counter st) (fst (heartbeat e (capture e st))))
      as (-> & _).
    destruct (heartbeat_fields e (capture e st)) as (-> & _).
    apply capture_fields.
Qed.

(** ** The heartbeat *)

(** The time of the last heartbeat after a pass. *)
Lemma iteration_last_heartbeat (e : iter_env) (st : state) :
  last_heartbeat (iteration_state e st)
  = match sox e with
    | SoxCompleted _ _ => last_heartbeat (fst (heartbeat e (capture e st)))
    | _ => last_heartbeat st
    end.
Proof.
  unfold iteration_state.
  destruct (capture_fields e st) as (_ & _ & _ & Hl & _).
  destruct (sox e) as [rc w|w|w] eqn:Hsox.
  - rewrite (iteration_completed e st rc w Hsox). cbn [fst snd].
    apply (cleanup_fields (segment_counter st) (fst (heartbeat e (capture e st)))).
  - rewrite (iteration_timeout e st w Hsox). cbn [fst snd].
    destruct (cleanup_fields (segment_counter st) (capture e st))
      as (_ & _ & _ & -> & _). exact Hl.
  - rewrite (iteration_fault e st w Hsox). cbn zeta.
    destruct (cleanup_fields (segment_counter st) (capture e st))
      as (_ & _ & _ & Hl' & _).
    destruct (connection_lost st); cbn [fst snd]; [|congruence].
    destruct (connect_attempts_fields max_retries 0 (reconnect e)
                (fst (cleanup (segment_counter st) (capture e st))))
      as (_ & _ & Hl'' & _).
    unfold connect_to_nodejs. congruence.
Qed.

(** A heartbeat send of a pass, read back from the trace. *)
Lemma pass_event_heartbeat (e : iter_env) (st : state) (data : list N) (ok : bool) :
  pass_event e st (EvSend data ok) ->
  is_transcription data = false ->
  exists s,
    socket st = Some s /\ ok = sock_send s (heartbeat_ok e) /\
    heartbeat_due (current_time e) (last_heartbeat st) = true /\
    exists rc w, sox e = SoxCompleted rc w.
Proof.
  intros Hp Hk. remember (EvSend data ok) as ev eqn:Hev.
  destruct Hp; try discriminate; injection Hev as <- <-.
  - rewrite is_transcription_record in Hk. discriminate.
  - eauto 8.
Qed.

(** C10, as amended. The time of the last heartbeat changes in a pass only
    when the pass hands a heartbeat to the socket and the peer takes it,
    and it then becomes the time read in that pass; a failed heartbeat
    send leaves it as it was. So in every pass whose recording call returns
    and in which more than 30 seconds have passed since the last heartbeat
    taken, the streamer (with a socket object) sends a heartbeat again,
    with no further wait after a failure. (A pass whose recording call
    raises skips the heartbeat.) *)
Theorem heartbeat_retried_until_taken (e : iter_env) (st : state) :
  (last_heartbeat (iteration_state e st) = last_heartbeat st \/
   (last_heartbeat (iteration_state e st) = current_time e /\
    exists ts, In (EvSend (keepalive_record ts) true) (iteration_trace e st))) /\
  (forall ts,
      In (EvSend (keepalive_record ts) false) (iteration_trace e st) ->
      last_heartbeat (iteration_state e st) = last_heartbeat st) /\
  (forall rc w s,
      sox e = SoxCompleted rc w ->
      heartbeat_due (current_time e) (last_heartbeat st) = true ->
      socket st = Some s ->
      exists ts,
        In (EvSend (keepalive_record ts) (sock_send s (heartbeat_ok e)))
           (iteration_trace e st) /\
        last_heartbeat (iteration_state e st)
        = if sock_send s (heartbeat_ok e) then current_time e
          else last_heartbeat st).
Proof.
  pose proof (iteration_last_heartbeat e st) as Hl.
  destruct (capture_fields e st) as (Hsock & _ & _ & Hlast & _).
  assert (Hhb : forall rc w, sox e = SoxCompleted rc w ->
                forall ev, In ev (snd (heartbeat e (capture e st))) ->
                           In ev (iteration_trace e st)).
  { intros rc w Hsox ev Hin. unfold iteration_trace.
    rewrite (iteration_completed e st rc w Hsox). cbn [fst snd].
    right. rewrite !in_app_iff. auto. }
  destruct (heartbeat_spec e (capture e st))
    as [[_ Hh]|(s & ts & Hdue & Hs & Hts & Hh)].
  - (* no heartbeat is sent in this pass *)
    assert (Hsame : last_heartbeat (iteration_state e st) = last_heartbeat st).
    { rewrite Hl. destruct (sox e); rewrite ?Hh; auto. }
    split; [now left|]. split; [auto|].
    intros rc w s Hsox Hdue Hs. exfalso.
    unfold heartbeat in Hh. rewrite Hlast, Hdue, Hsock, Hs in Hh.
    destruct (wire_keepalive (current_time e)) as (ts & _ & Hw).
    rewrite Hw in Hh. destruct (sock_send s (heartbeat_ok e)); discriminate.
  - rewrite Hsock in Hs. rewrite Hlast in Hdue.
    destruct (sox e) as [rc w|w|w] eqn:Hsox.
    + rewrite Hh in Hl. cbn [fst] in Hl.
      assert (Hin : In (EvSend (keepalive_record ts) (sock_send s (heartbeat_ok e)))
                       (iteration_trace e st)).
      { apply (Hhb rc w eq_refl). rewrite Hh. now left. }
      assert (Hone : forall ts' ok',
                 In (EvSend (keepalive_record ts') ok') (iteration_trace e st) ->
                 ok' = sock_send s (heartbeat_ok e)).
      { intros ts' ok' Hin'. apply iteration_events in Hin'.
        apply pass_event_heartbeat in Hin' as (s' & Hs' & -> & _);
          [congruence|apply is_transcription_keepalive]. }
      destruct (sock_send s (heartbeat_ok e)) eqn:Hok.
      * split; [right; rewrite Hl; simpl; eauto|]. split.
        -- intros ts' Hin'. apply Hone in Hin'. discriminate.
        -- intros rc' w' s' _ _ Hs'. assert (s' = s) as -> by congruence.
           rewrite Hok. exists ts. rewrite Hl. auto.
      * split; [left; rewrite Hl; exact Hlast|]. split.
        -- intros _ _. rewrite Hl. exact Hlast.
        -- intros rc' w' s' _ _ Hs'. assert (s' = s) as -> by congruence.
           rewrite Hok. exists ts. rewrite Hl. auto.
    + split; [now left|]. split; [auto|]. intros; discriminate.
    + split; [now left|]. split; [auto|]. intros; discriminate.
Qed.

(** C10, where the claim as stated fails. The first pass sends a heartbeat
    that the peer does not take; in the second pass the heartbeat is still
    due, the socket is connected, and yet nothing is sent, because the
    recording call timed out and the handler of line 199 goes straight to
    the next pass. *)
Lemma heartbeat_skipped_when_recording_times_out :
  let p1 := pass_at 31 speech hello_world true false in
  let p2 := pass_at 40 (SoxTimeoutExpired None) hello_world true true in
  let st1 := after_pass p1 connected_streamer in
  List.filter is_heartbeat_send (iteration_trace p1 connected_streamer)
  = [EvSend (keepalive_record (of_string "1700000001.5")) false] /\
  heartbeat_due (current_time p2) (last_heartbeat st1) = true /\
  socket st1 = Some Connected /\
  iteration_trace p2 st1 = [EvSox 1 None].
Proof. vm_compute. auto. Qed.

Lemma heartbeat_retried_until_taken_witness :
  let p1 := pass_at 31 speech hello_world true false in
  let p2 := pass_at 40 speech hello_world true true in
  let st1 := after_pass p1 connected_streamer in
  exists ts,
    In (EvSend (keepalive_record ts) true) (iteration_trace p2 st1) /\
    last_heartbeat (iteration_state p2 st1) = current_time p2.
Proof.
  cbn zeta.
  destruct (heartbeat_retried_until_taken
              (pass_at 40 speech hello_world true true)
              (after_pass (pass_at 31 speech hello_world true false)
                          connected_streamer)) as (_ & _ & H).
  apply (H 0 (Some 64044) Connected); reflexivity.
Defined.

(** ** Failed transcriptions *)

(** C4, where the claim as stated fails. [transcribe_audio_chunk] has no
    value for a timeout or an engine error: when the outer timeout expires,
    when the alarm of the child fires, and when the engine raises, it
    returns what it returns when the engine hears nothing, the plain empty
    string. *)
Lemma transcribe_failure_returns_plain_empty_string :
  let silence := transcription_of (whisper_script (Segments [])) in
  silence = [] /\
  transcription_of TimeoutExpired = silence /\
  transcription_of (whisper_script Alarm) = silence /\
  transcription_of (whisper_script (EngineException (of_string "no model")))
  = silence.
Proof. vm_compute. auto. Qed.

Lemma engine_failed_empty (r : run_outcome) :
  engine_failed r = true -> transcription_of r = [].
Proof.
  unfold transcription_of. destruct r as [rc out err| |]; simpl; auto.
  intros H. apply negb_true_iff in H. rewrite H. reflexivity.
Qed.

(** The engine call in time: which deadline decides. *)
Lemma engine_call_in_time (r : engine_run) :
  (child_seconds r < run_timeout)%Q ->
  engine_call r = whisper_script (child_script r).
Proof.
  intros H. unfold engine_call.
  destruct (Qle_bool run_timeout (child_seconds r)) eqn:Hle; [|reflexivity].
  apply Qle_bool_iff in Hle. now apply Qle_not_lt in Hle.
Qed.

Lemma engine_call_timeout (r : engine_run) :
  (run_timeout <= child_seconds r)%Q -> engine_call r = TimeoutExpired.
Proof.
  intros H. unfold engine_call. apply Qle_bool_iff in H. now rewrite H.
Qed.

Lemma alarm_fires_iff (r : engine_run) :
  alarm_fires r = true <-> (alarm_seconds <= work_seconds r)%Q.
Proof. apply Qle_bool_iff. Qed.

Lemma child_script_spec (r : engine_run) :
  ((alarm_seconds <= work_seconds r)%Q -> child_script r = Alarm) /\
  ((work_seconds r < alarm_seconds)%Q -> child_script r = work r).
Proof.
  unfold child_script. split; intros H.
  - apply alarm_fires_iff in H. now rewrite H.
  - destruct (alarm_fires r) eqn:Hf; [|reflexivity].
    apply alarm_fires_iff in Hf. now apply Qle_not_lt in Hf.
Qed.

Lemma engine_call_failed (r : engine_run) :
  (alarm_seconds <= work_seconds r)%Q \/ (run_timeout <= child_seconds r)%Q \/
  (exists msg, work r = EngineException msg) ->
  engine_failed (engine_call r) = true.
Proof.
  intros H. destruct (Qlt_le_dec (child_seconds r) run_timeout) as [Hin|Hout].
  2:{ now rewrite (engine_call_timeout r Hout). }
  rewrite (engine_call_in_time r Hin).
  destruct (Qlt_le_dec (work_seconds r) alarm_seconds) as [Hw|Hw].
  - rewrite (proj2 (child_script_spec r) Hw).
    destruct H as [H|[H|[msg H]]].
    + now apply Qle_not_lt in H.
    + now apply Qle_not_lt in H.
    + now rewrite H.
  - now rewrite (proj1 (child_script_spec r) Hw).
Qed.

(** [pkill] in a pass whose recording call returned. *)
Lemma pkill_in_completed_pass (e : iter_env) (st : state) (rc : Z) (w : option Z) :
  sox e = SoxCompleted rc w ->
  In EvPkill (iteration_trace e st)
  <-> (rc = 0 /\ exists size, file_size e st = Some size /\ 8000 < size)
      /\ engine e = TimeoutExpired.
Proof.
  intros Hsox. split.
  - intros Hin. apply iteration_events in Hin.
    remember EvPkill as ev eqn:Hev.
    destruct Hin; try discriminate.
    assert (rc = 0) by congruence. eauto 6.
  - intros [(-> & size & Hsize & Hgt) Ht].
    unfold iteration_trace. rewrite (iteration_completed e st 0 w Hsox).
    cbn [fst snd]. rewrite process_segment_spec.
    unfold file_size in Hsize. rewrite Hsize. cbn [Z.eqb].
    apply Z.ltb_lt in Hgt. rewrite Hgt, transcribe_audio_chunk_trace, Ht.
    right. rewrite !in_app_iff. left. left. right. now left.
Qed.

(** C4, as amended. The child arms a 5-second alarm and the call that
    wraps it has an 8-second timeout: work that ends before both gives its
    result, work that outlasts the alarm is cut by the handler of the
    child, which exits with 1, and a child still alive after 8 seconds is
    killed by the timeout of the call. When either deadline fires, and when
    the engine exits with a non-zero code, [transcribe_audio_chunk] returns
    the empty string (there is no timeout or error value). The cases differ
    in one effect: when the outer timeout expires, and only then,
    [pkill -f faster_whisper] is run. In every one of them the pass sends
    no transcription, ends normally and leaves [running] as it was, and the
    loop goes on with the next pass. *)
Theorem failed_transcription_is_empty (e : iter_env) (envs : list iter_env)
    (st : state) (rc : Z) (w : option Z) (r : engine_run) :
  sox e = SoxCompleted rc w ->
  engine_failed (engine e) = true ->
  running st = true ->
  ((alarm_seconds == 5 /\ run_timeout == 8 /\ alarm_seconds < run_timeout)%Q /\
   ((work_seconds r < alarm_seconds)%Q -> (child_seconds r < run_timeout)%Q ->
    engine_call r = whisper_script (work r)) /\
   ((alarm_seconds <= work_seconds r)%Q -> (child_seconds r < run_timeout)%Q ->
    engine_call r = whisper_script Alarm) /\
   ((run_timeout <= child_seconds r)%Q -> engine_call r = TimeoutExpired) /\
   ((alarm_seconds <= work_seconds r)%Q \/ (run_timeout <= child_seconds r)%Q \/
    (exists msg, work r = EngineException msg) ->
    engine_failed (engine_call r) = true /\
    transcription_of (engine_call r) = [])) /\
  (engine_failed (whisper_script Alarm) = true /\
   engine_failed TimeoutExpired = true /\
   forall msg, engine_failed (whisper_script (EngineException msg)) = true) /\
  transcription_of (engine e) = [] /\
  (In EvPkill (iteration_trace e st)
   <-> (rc = 0 /\ exists size, file_size e st = Some size /\ 8000 < size)
       /\ engine e = TimeoutExpired) /\
  Forall (fun ev => is_content_send ev = false) (iteration_trace e st) /\
  snd (iteration e st) = Return tt /\
  running (iteration_state e st) = true /\
  record_and_process_audio (e :: envs) st
  = (loop_state envs (after_pass e st),
     iteration_trace e st ++ loop_trace envs (after_pass e st),
     loop_exit_of envs (after_pass e st)).
Proof.
  intros Hsox Hfail Hrun.
  pose proof (engine_failed_empty _ Hfail) as Hempty.
  destruct (completed_pass_returns e st rc w Hsox) as (Hret & Hr & _).
  split.
  { split; [repeat split|].
    split.
    { intros Hw Hin. rewrite (engine_call_in_time r Hin).
      now rewrite (proj2 (child_script_spec r) Hw). }
    split.
    { intros Hw Hin. rewrite (engine_call_in_time r Hin).
      now rewrite (proj1 (child_script_spec r) Hw). }
    split; [apply engine_call_timeout|].
    intros H. pose proof (engine_call_failed r H) as Hf.
    split; [exact Hf|now apply engine_failed_empty]. }
  split; [auto|]. split; [exact Hempty|].
  split; [exact (pkill_in_completed_pass e st rc w Hsox)|].
  split; [|split; [exact Hret|split; [congruence|]]].
  - apply short_text_pass. rewrite Hempty. vm_compute. discriminate.
  - rewrite (loop_cons _ _ _ Hrun), Hret. reflexivity.
Qed.

Lemma failed_transcription_is_empty_witness :
  let slow := EngineRun (Segments [of_string " hello"]) (1 # 2) 7 (1 # 10) (1 # 10) in
  let stuck := EngineRun (Segments [of_string " hello"]) (1 # 2) 20 9 (1 # 10) in
  let e := pass_at 1 speech (engine_call slow) true true in
  let e' := pass_at 1 speech (engine_call stuck) true true in
  engine_call slow = whisper_script Alarm /\
  engine_call stuck = TimeoutExpired /\
  transcription_of (engine e) = [] /\
  transcription_of (engine e') = [] /\
  ~ In EvPkill (iteration_trace e connected_streamer) /\
  In EvPkill (iteration_trace e' connected_streamer) /\
  Forall (fun ev => is_content_send ev = false)
         (iteration_trace e connected_streamer) /\
  Forall (fun ev => is_content_send ev = false)
         (iteration_trace e' connected_streamer) /\
  snd (iteration e connected_streamer) = Return tt /\
  snd (iteration e' connected_streamer) = Return tt.
Proof.
  cbn zeta.
  set (slow := EngineRun (Segments [of_string " hello"]) (1 # 2) 7 (1 # 10) (1 # 10)).
  set (stuck := EngineRun (Segments [of_string " hello"]) (1 # 2) 20 9 (1 # 10)).
  destruct (failed_transcription_is_empty
              (pass_at 1 speech (engine_call slow) true true) []
              connected_streamer 0 (Some 64044) slow)
    as ((_ & _ & A1 & _ & _) & _ & A2 & A3 & A4 & A5 & _); try reflexivity.
  destruct (failed_transcription_is_empty
              (pass_at 1 speech (engine_call stuck) true true) []
              connected_streamer 0 (Some 64044) stuck)
    as ((_ & _ & _ & B1 & _) & _ & B2 & B3 & B4 & B5 & _); try reflexivity.
  split; [apply A1; vm_compute; congruence|].
  split; [apply B1; vm_compute; congruence|].
  split; [exact A2|]. split; [exact B2|].
  split.
  { intros H. apply A3 in H as [_ H]. vm_compute in H. discriminate. }
  split.
  { apply B3. split; [|reflexivity]. split; [reflexivity|].
    exists 64044. split; [reflexivity|lia]. }
  auto.
Defined.

(** ** The retry budget of [connect_to_nodejs] *)

Lemma refusals_connects (k : nat) :
  length (List.filter is_connect (refusals k)) = k.
Proof. induction k as [|k IH]; simpl; [reflexivity|now rewrite IH]. Qed.

(** What a connect does: some attempts are refused, each followed by the
    close of the socket and the delay; then either the budget is spent and
    [False] is returned, or an attempt succeeds and [True] is returned, or
    an attempt raises something else than [ConnectionRefusedError], which
    leaves the function at once. *)
Lemma connect_attempts_spec (todo attempt : nat) (net : nat -> conn_outcome)
    (st : state) :
  let c := connect_attempts todo attempt net st in
  exists k,
    (k <= todo)%nat /\
    (forall i, (i < k)%nat -> net (attempt + i)%nat = ConnRefused) /\
    ((k = todo /\ snd c = Return false /\ snd (fst c) = refusals k)
     \/ ((k < todo)%nat /\ net (attempt + k)%nat = ConnOk /\
         snd c = Return true /\
         snd (fst c) = refusals k ++ [EvConnect ConnOk] /\
         socket (fst (fst c)) = Some Connected)
     \/ ((k < todo)%nat /\ net (attempt + k)%nat = ConnFault /\
         snd c = Raise /\
         snd (fst c) = refusals k ++ [EvConnect ConnFault])).
Proof.
  cbn zeta. revert attempt st.
  induction todo as [|todo IH]; intros attempt st.
  - exists 0%nat. simpl. split; [lia|]. split; [intros; lia|]. left. auto.
  - simpl. destruct (net attempt) eqn:Hn.
    + exists 0%nat. split; [lia|]. split; [intros; lia|]. right. left.
      rewrite Nat.add_0_r. simpl. repeat split; auto. lia.
    + destruct (IH (S attempt) (set_socket (Some Closed) st))
        as (k & Hk & Href & Hcases).
      destruct (connect_attempts todo (S attempt) net (set_socket (Some Closed) st))
        as [[st' tr] r]. cbn [fst snd] in *.
      exists (S k). split; [lia|]. split.
      { intros [|i] Hi; [now rewrite Nat.add_0_r|].
        rewrite Nat.add_succ_r. apply Href. lia. }
      rewrite Nat.add_succ_r. simpl.
      destruct Hcases as [(-> & -> & ->)|[(Hlt & Hok & -> & -> & Hs)|(Hlt & Hf & -> & ->)]].
      * left. auto.
      * right. left. repeat split; auto. lia.
      * right. right. repeat split; auto. lia.
    + exists 0%nat. split; [lia|]. split; [intros; lia|]. right. right.
      rewrite Nat.add_0_r. simpl. repeat split; auto. lia.
Qed.

(** C5, where the claim as stated fails. A connection attempt that raises
    something else than [ConnectionRefusedError] (a timeout, an unreachable
    network, a name that does not resolve) is not caught: the first such
    attempt ends [connect_to_nodejs] by an exception, with no delay and no
    further attempt, and the exception leaves [main] too. *)
Lemma connect_fault_is_raised :
  let w := RunEnv t_start (fun _ => ConnFault) true true [] in
  connect_to_nodejs (first_connect w) (init t_start)
  = (set_socket (Some Unconnected) (init t_start), [EvConnect ConnFault], Raise) /\
  main w = (set_socket (Some Unconnected) (init t_start), [EvConnect ConnFault], Raise).
Proof. vm_compute. auto. Qed.

(** C5, as amended. The first connect of a run makes at most 5 attempts.
    Each attempt that is refused is followed by the close of the socket and
    a wait of 2 seconds. If the 5 attempts are refused, the connect returns
    [False] and [main] returns without a single event of the capture loop;
    if an attempt succeeds the connect returns [True] at once; if an
    attempt raises another exception, that exception leaves the connect
    and [main] at once. *)
Theorem connect_retry_budget (w : run_env) :
  let c := connect_to_nodejs (first_connect w) (init (start_time w)) in
  (retry_delay == 2)%Q /\
  (length (List.filter is_connect (snd (fst c))) <= 5)%nat /\
  exists k,
    (k <= 5)%nat /\
    (forall i, (i < k)%nat -> first_connect w i = ConnRefused) /\
    ((k = 5%nat /\ snd c = Return false /\ snd (fst c) = refusals 5 /\
      main w = (fst (fst c), refusals 5, Return tt))
     \/ ((k < 5)%nat /\ first_connect w k = ConnOk /\ snd c = Return true /\
         snd (fst c) = refusals k ++ [EvConnect ConnOk])
     \/ ((k < 5)%nat /\ first_connect w k = ConnFault /\ snd c = Raise /\
         snd (fst c) = refusals k ++ [EvConnect ConnFault] /\
         main w = (fst (fst c), refusals k ++ [EvConnect ConnFault], Raise))).
Proof.
  cbn zeta. split; [reflexivity|].
  destruct (connect_attempts_spec max_retries 0 (first_connect w)
              (init (start_time w))) as (k & Hk & Href & Hcases).
  fold (connect_to_nodejs (first_connect w) (init (start_time w))) in Hcases.
  unfold main.
  destruct (connect_to_nodejs (first_connect w) (init (start_time w)))
    as [[st tr] r]. cbn [fst snd] in *. change max_retries with 5%nat in *.
  split.
  - destruct Hcases as [(_ & _ & ->)|[(Hlt & _ & _ & -> & _)|(Hlt & _ & _ & ->)]];
      rewrite ?List.filter_app, ?length_app, refusals_connects; simpl; lia.
  - exists k. split; [exact Hk|]. split; [exact Href|].
    destruct Hcases as [(-> & -> & ->)|[(Hlt & Hok & -> & -> & _)|(Hlt & Hf & -> & ->)]].
    + left. auto.
    + right. left. auto.
    + right. right. auto.
Qed.

(** ** Send failures and reconnection *)

(** The only connects of a pass are those of the handler of line 205, when
    the recording call raised and the socket is [None] or closed. *)
Lemma pass_connect_only_after_fault (e : iter_env) (st : state) (ev : event) :
  In ev (iteration_trace e st) ->
  is_connect ev = true ->
  (exists w, sox e = SoxFault w) /\ connection_lost st = true.
Proof.
  intros Hin Hev.
  destruct (iteration_events e st ev Hin); simpl in Hev; try discriminate; eauto.
Qed.

(** A pass that starts with a socket that is neither [None] nor closed
    leaves the socket as it is. *)
Lemma iteration_socket (e : iter_env) (st : state) :
  connection_lost st = false -> socket (iteration_state e st) = socket st.
Proof.
  intros Hlost. unfold iteration_state.
  destruct (capture_fields e st) as (Hs & _).
  destruct (sox e) as [rc w|w|w] eqn:Hsox.
  - apply (completed_pass_returns e st rc w Hsox).
  - rewrite (iteration_timeout e st w Hsox). cbn [fst snd].
    destruct (cleanup_fields (segment_counter st) (capture e st)) as (-> & _).
    exact Hs.
  - rewrite (iteration_fault e st w Hsox). cbn zeta. rewrite Hlost. cbn [fst].
    destruct (cleanup_fields (segment_counter st) (capture e st)) as (-> & _).
    exact Hs.
Qed.

(** Once connected, the loop never connects again, whatever happens to its
    sends: a send failure changes nothing the reconnect test looks at. *)
Lemma connected_loop_never_reconnects (envs : list iter_env) (st : state) :
  connection_lost st = false ->
  Forall (fun ev => is_connect ev = false) (loop_trace envs st).
Proof.
  revert st. induction envs as [|e envs IH]; intros st Hlost.
  - constructor.
  - destruct (running st) eqn:Hr.
    2:{ unfold loop_trace. rewrite (loop_not_running _ _ Hr). constructor. }
    assert (Hpass : Forall (fun ev => is_connect ev = false) (iteration_trace e st)).
    { apply List.Forall_forall. intros ev Hin.
      destruct (is_connect ev) eqn:Hc; [|reflexivity].
      destruct (pass_connect_only_after_fault e st ev Hin Hc) as [_ H].
      congruence. }
    unfold loop_trace. rewrite (loop_cons _ _ _ Hr).
    destruct (snd (iteration e st)); cbn [fst snd]; [|exact Hpass].
    apply Forall_app_2; [exact Hpass|]. apply IH.
    pose proof (iteration_socket e st Hlost) as Hs.
    unfold connection_lost, after_pass in *.
    destruct (stop_requested e); simpl; rewrite Hs; exact Hlost.
Qed.

(** C1, on a run in which it fails. The first connection succeeds; in each
    of two passes the engine hears "hello world" and the peer does not take
    the record. Both records are handed to the socket, both sends fail, and
    the only connect of the whole run is the first one: no reconnect is
    attempted between the failed send and the next delivery attempt. *)
Theorem send_failure_not_followed_by_reconnect :
  let failing := fun dt => pass_at dt speech hello_world false true in
  let tr := main_trace (run_of [failing 1; failing 4]) in
  let record :=
    transcription_record (of_string "hello world") (of_string "1700000001.5") true in
  List.filter is_content_send tr = [EvSend record false; EvSend record false] /\
  List.filter is_connect tr = [EvConnect ConnOk] /\
  hd_error tr = Some (EvConnect ConnOk) /\
  captures tr = [0; 1]%nat.
Proof. vm_compute. auto. Qed.

(** ** Further concrete runs *)

Lemma transcription_records_are_final_witness :
  let data :=
    transcription_record (of_string "hello world") (of_string "1700000001.5") true in
  exists text now ts,
    wire (transcription_message text now true) = Some data /\
    encode_utf8 (of_string (frepr now)) = Some ts /\
    data = transcription_record text ts true /\
    printable (encode_basestring_ascii text) /\
    last data = Some 10%N.
Proof.
  cbn zeta.
  apply (transcription_records_are_final
           (run_of [pass_at 1 speech hello_world true true]) _ true).
  - vm_compute. right. right. right. left. reflexivity.
  - reflexivity.
Defined.

Lemma heartbeat_failure_swallowed_witness :
  let ok := [pass_at 31 speech hello_world true true;
             pass_at 33 speech hello_world true true] in
  let ko := [pass_at 31 speech hello_world true false;
             pass_at 33 speech hello_world true false] in
  loop_exit_of ko connected_streamer = loop_exit_of ok connected_streamer /\
  without_heartbeats (loop_trace ko connected_streamer)
  = without_heartbeats (loop_trace ok connected_streamer) /\
  running (loop_state ko connected_streamer)
  = running (loop_state ok connected_streamer) /\
  socket (loop_state ko connected_streamer)
  = socket (loop_state ok connected_streamer).
Proof.
  cbn zeta. apply heartbeat_failure_swallowed.
  repeat constructor.
Defined.

Lemma artifacts_always_removed_witness :
  let envs := [pass_at 1 speech hello_world true true;
               pass_at 4 (SoxTimeoutExpired (Some 1024)) hello_world true true] in
  files (fst (start_streaming true true envs connected_streamer)) = ∅ /\
  last (snd (start_streaming true true envs connected_streamer)) = Some EvRmtree.
Proof.
  cbn zeta.
  destruct (artifacts_always_removed
              (pass_at 1 speech hello_world true true)
              [pass_at 1 speech hello_world true true;
               pass_at 4 (SoxTimeoutExpired (Some 1024)) hello_world true true]
              connected_streamer) as (_ & _ & _ & _ & _ & H).
  apply H. reflexivity.
Defined.

(** * Further properties of the code *)

(** ** [str.strip] *)

Lemma lstrip_nonspace (c : N) (s : pystr) :
  isspace c = false -> lstrip (c :: s) = c :: s.
Proof. intros H. simpl. now rewrite H. Qed.

Lemma lstrip_head (s : pystr) (c : N) (s' : pystr) :
  lstrip s = c :: s' -> isspace c = false.
Proof.
  induction s as [|d s IH]; simpl; [discriminate|].
  destruct (isspace d) eqn:Hd; [exact IH|]. intros H. congruence.
Qed.

Lemma lstrip_idem (s : pystr) : lstrip (lstrip s) = lstrip s.
Proof.
  destruct (lstrip s) as [|c s'] eqn:H; [reflexivity|].
  apply lstrip_nonspace. eapply lstrip_head, H.
Qed.

Lemma lstrip_snoc (s : pystr) (c : N) :
  lstrip (s ++ [c])
  = match lstrip s with
    | [] => if isspace c then [] else [c]
    | l => l ++ [c]
    end.
Proof.
  induction s as [|d s IH]; simpl; [reflexivity|].
  destruct (isspace d); [exact IH|reflexivity].
Qed.

Lemma rstrip_cons (c : N) (s : pystr) :
  rstrip (c :: s)
  = match rstrip s with
    | [] => if isspace c then [] else [c]
    | l => c :: l
    end.
Proof.
  unfold rstrip. simpl. rewrite lstrip_snoc.
  destruct (lstrip (rev s)) as [|d l]; simpl.
  - destruct (isspace c); reflexivity.
  - rewrite rev_app_distr. simpl.
    destruct (rev l ++ [d]) eqn:H; [|reflexivity].
    apply app_eq_nil in H as [_ H]. discriminate.
Qed.


Lemma rstrip_idem (s : pystr) : rstrip (rstrip s) = rstrip s.
Proof. unfold rstrip. now rewrite rev_involutive, lstrip_idem. Qed.

(** What [rstrip] leaves of a text that starts with a character that is not
    white space still starts with it. *)
Lemma rstrip_keeps_head (c : N) (s : pystr) :
  isspace c = false -> exists l, rstrip (c :: s) = c :: l.
Proof.
  intros H. rewrite rstrip_cons, H. destruct (rstrip s); eauto.
Qed.

Lemma strip_idem (s : pystr) : strip (strip s) = strip s.
Proof.
  unfold strip. destruct (lstrip s) as [|c a] eqn:Ha; [reflexivity|].
  pose proof (lstrip_head _ _ _ Ha) as Hc.
  destruct (rstrip_keeps_head c a Hc) as [l Hl].
  rewrite Hl, (lstrip_nonspace c l Hc), <- Hl. apply rstrip_idem.
Qed.


(** A text that [strip] leaves non-empty starts and ends with characters
    that are not white space, so [strip] leaves it alone behind any prefix
    of that kind. *)
Lemma strip_after_prefix (p s : pystr) (c : N) :
  isspace c = false ->
  strip (c :: p ++ strip s) = c :: p ++ strip s \/ strip s = [].
Proof.
  intros Hc. destruct (strip s) as [|d l] eqn:Hs; [now right|left].
  unfold strip at 1. rewrite (lstrip_nonspace c _ Hc).
  assert (Hr : rstrip (d :: l) = d :: l).
  { rewrite <- Hs. unfold strip. apply rstrip_idem. }
  assert (Ht : forall q t, t <> [] -> rstrip t = t -> rstrip (q ++ t) = q ++ t).
  { induction q as [|x q IH]; intros t Hne Ht; [exact Ht|].
    simpl. rewrite rstrip_cons, (IH t Hne Ht).
    destruct (q ++ t) eqn:Hq; [|reflexivity].
    apply app_eq_nil in Hq as [_ Hq]. contradiction. }
  apply (Ht (c :: p) (d :: l)); [discriminate|exact Hr].
Qed.

(** ** What a send can do *)


(** A record that the peer takes and for which [False] is returned: the
    text holds the lone surrogate U+DC80. *)
Example send_taken_and_false :
  let r := send_transcription [104; 56448; 105]%N true t_example true
             (set_socket (Some Connected) (init t_example)) in
  snd r = false /\ exists data, fst r = [EvSend data true].
Proof. vm_compute. eauto. Qed.

(** ** One record, one line *)

Lemma newlines_app (a b : list N) : newlines (a ++ b) = (newlines a + newlines b)%nat.
Proof. unfold newlines. now rewrite List.filter_app, length_app. Qed.

Lemma no_newline_newlines (s : list N) :
  Forall (fun c => c <> 10%N) s -> newlines s = 0%nat.
Proof.
  unfold newlines. induction 1 as [|c s Hc _ IH]; [reflexivity|].
  cbn [List.filter]. destruct (N.eqb_spec 10 c); [congruence|exact IH].
Qed.

Lemma printable_newlines (s : list N) : printable s -> newlines s = 0%nat.
Proof.
  intros H. apply no_newline_newlines. revert H.
  apply List.Forall_impl. intros c Hc ->. lia.
Qed.

Lemma lor_high_not_newline (h x : N) :
  N.testbit h 7 = true -> N.lor h x <> 10%N.
Proof.
  intros Hh H.
  assert (Hb : N.testbit (N.lor h x) 7 = true) by (rewrite N.lor_spec, Hh; reflexivity).
  rewrite H in Hb. discriminate.
Qed.

(** The UTF-8 bytes of a character other than the newline hold no newline. *)
Lemma utf8_char_no_newline (c : N) (bs : list N) :
  utf8_char c = Some bs -> c <> 10%N -> Forall (fun b => b <> 10%N) bs.
Proof.
  unfold utf8_char. intros H Hc.
  repeat match type of H with
         | (if ?b then _ else _) = _ => destruct b
         end; inversion H; subst;
    repeat constructor; auto; apply lor_high_not_newline; reflexivity.
Qed.

Lemma encode_utf8_no_newline (s : pystr) (bs : list N) :
  encode_utf8 s = Some bs ->
  Forall (fun c => c <> 10%N) s -> Forall (fun b => b <> 10%N) bs.
Proof.
  revert bs. induction s as [|c s IH]; simpl; intros bs H Hs.
  - inversion H. constructor.
  - destruct (utf8_char c) as [b|] eqn:Hc; [|discriminate].
    destruct (encode_utf8 s) as [bs'|]; [|discriminate].
    inversion H; subst. inversion Hs; subst.
    apply Forall_app_2; [eapply utf8_char_no_newline; eauto|auto].
Qed.

(** X2. The framing of the protocol cannot be broken by what is said: if
    the text of the timestamp holds no newline, the bytes of a
    transcription message hold exactly one newline byte, the last one,
    whatever the transcribed text (newlines in it are escaped); and the
    same holds of a heartbeat message. *)
Theorem record_is_one_line (text : pystr) (now : pyfloat) (f : bool) :
  one_line (frepr now) ->
  (forall data,
      wire (transcription_message text now f) = Some data ->
      newlines data = 1%nat /\ last data = Some 10%N) /\
  (forall data,
      wire (keepalive_message now) = Some data ->
      newlines data = 1%nat /\ last data = Some 10%N).
Proof.
  intros Hline. split; intros data Hw.
  - destruct (wire_transcription text now f) as (ts & Hts & Hw').
    assert (data = transcription_record text ts f) as -> by congruence.
    split; [|apply transcription_record_last].
    unfold transcription_record. rewrite !newlines_app.
    rewrite (printable_newlines _ (encode_basestring_ascii_printable text)).
    rewrite (no_newline_newlines ts (encode_utf8_no_newline _ _ Hts Hline)).
    destruct f; reflexivity.
  - destruct (wire_keepalive now) as (ts & Hts & Hw').
    assert (data = keepalive_record ts) as -> by congruence.
    split.
    + unfold keepalive_record. rewrite !newlines_app.
      rewrite (no_newline_newlines ts (encode_utf8_no_newline _ _ Hts Hline)).
      reflexivity.
    + unfold keepalive_record. rewrite !app_assoc. apply last_snoc.
Qed.

Lemma record_is_one_line_witness :
  newlines (transcription_record (of_string "line one" ++ [10%N] ++ of_string "line two")
              (of_string "1700000001.5") true) = 1%nat.
Proof.
  destruct (record_is_one_line
              (of_string "line one" ++ [10%N] ++ of_string "line two")
              (t_after 1) true) as [H _].
  - unfold one_line. repeat (constructor; [discriminate|]). constructor.
  - apply (H _ eq_refl).
Defined.

(** ** The text that comes back from the engine *)

(** X3. The text [transcribe_audio_chunk] returns never starts or ends with
    white space: stripping it again changes nothing, so the test of line
    176 compares the length of the text itself with 2. *)
Theorem transcription_is_stripped (r : run_outcome) :
  strip (transcription_of r) = transcription_of r /\
  isMeaningfulText (transcription_of r) = (2 <? len (transcription_of r)).
Proof.
  assert (H : strip (transcription_of r) = transcription_of r).
  { unfold transcription_of. destruct r as [rc out err| |]; simpl; auto.
    destruct ((rc =? 0) && truthy (strip out)); simpl; auto using strip_idem. }
  split; [exact H|].
  destruct (isMeaningfulText (transcription_of r)) eqn:Hm.
  - apply isMeaningfulText_iff in Hm. rewrite H in Hm. symmetry.
    now apply Z.ltb_lt.
  - symmetry. apply Z.ltb_ge. destruct (Z.ltb_spec 2 (len (transcription_of r)));
      [|assumption].
    rewrite <- H in H0. apply isMeaningfulText_iff in H0. congruence.
Qed.










(** The pipe on concrete segments: a carriage return inside a segment comes
    back as a newline, and a lone surrogate makes the child fail with the
    message of the codec on its standard error. *)
Example child_output_carriage_return :
  transcription_of (whisper_script (Segments [[97; 13; 98]%N])) = [97; 10; 98]%N /\
  transcription_of (whisper_script (Segments [[97; 13; 10; 98]%N])) = [97; 10; 98]%N.
Proof. vm_compute. auto. Qed.

Example child_output_lone_surrogate :
  whisper_script (Segments [[97; 56448; 98]%N])
  = Completed 1 []
      (of_string "Error: 'utf-8' codec can't encode character '\udc80' in position 1: surrogates not allowed"
       ++ [10%N]) /\
  whisper_script (Segments [[120; 55296; 55297; 32; 121]%N])
  = Completed 1 []
      (of_string "Error: 'utf-8' codec can't encode characters in position 1-2: surrogates not allowed"
       ++ [10%N]).
Proof. vm_compute. auto. Qed.

(** ** What a connect leaves behind *)

Lemma connect_attempts_socket (todo attempt : nat) (net : nat -> conn_outcome)
    (st : state) :
  let c := connect_attempts todo attempt net st in
  match snd c with
  | Return true => socket (fst (fst c)) = Some Connected
  | Return false => todo = 0%nat \/ socket (fst (fst c)) = Some Closed
  | Raise => socket (fst (fst c)) = Some Unconnected
  end.
Proof.
  cbn zeta. revert attempt st. induction todo as [|todo IH]; intros attempt st.
  - simpl. auto.
  - simpl. destruct (net attempt); try reflexivity.
    specialize (IH (S attempt) (set_socket (Some Closed) st)).
    destruct todo as [|todo']; [simpl; auto|].
    destruct (connect_attempts (S todo') (S attempt) net (set_socket (Some Closed) st))
      as [[st' tr] [[|]|]]; cbn [fst snd] in *; auto.
    destruct IH as [IH|IH]; [discriminate|auto].
Qed.

(** X5. The value [connect_to_nodejs] returns tells the state of the socket
    it leaves: [True] exactly when the socket is connected, [False]
    exactly when it is closed, in which case the test of line 212 holds
    and a later error will try to connect again. It touches nothing else
    of the streamer. *)
Theorem connect_result_tells_socket (net : nat -> conn_outcome) (st : state) :
  let c := connect_to_nodejs net st in
  (snd c = Return true <-> socket (fst (fst c)) = Some Connected) /\
  (snd c = Return false <-> socket (fst (fst c)) = Some Closed) /\
  (snd c = Return false -> connection_lost (fst (fst c)) = true) /\
  set_socket (socket st) (fst (fst c)) = st.
Proof.
  cbn zeta. unfold connect_to_nodejs.
  pose proof (connect_attempts_socket max_retries 0 net st) as Hs.
  pose proof (connect_attempts_fields max_retries 0 net st) as (H1 & H2 & H3 & H4 & H5).
  cbn zeta in *.
  destruct (connect_attempts max_retries 0 net st) as [[st' tr] r].
  cbn [fst snd] in *.
  assert (Hst : set_socket (socket st) st' = st).
  { destruct st, st'; unfold set_socket; simpl in *; congruence. }
  destruct r as [[|]|]; (destruct Hs as [Hs|Hs]; [discriminate Hs|]) || idtac;
    unfold connection_lost; rewrite Hs;
    repeat split; auto; intros; try discriminate; congruence.
Qed.

(** ** What the loop never does *)

(** The loop leaves a socket that is neither [None] nor closed as it is. *)
Lemma loop_socket (envs : list iter_env) (st : state) :
  connection_lost st = false -> socket (loop_state envs st) = socket st.
Proof.
  revert st. induction envs as [|e envs IH]; intros st Hlost; [reflexivity|].
  destruct (running st) eqn:Hr.
  2:{ unfold loop_state. now rewrite (loop_not_running _ _ Hr). }
  pose proof (iteration_socket e st Hlost) as Hs.
  unfold loop_state. rewrite (loop_cons _ _ _ Hr).
  destruct (snd (iteration e st)); cbn [fst snd]; [|exact Hs].
  assert (Ha : socket (after_pass e st) = socket st).
  { unfold after_pass. destruct (stop_requested e); simpl; exact Hs. }
  fold (loop_state envs (after_pass e st)). rewrite IH; [exact Ha|].
  unfold connection_lost in *. now rewrite Ha.
Qed.

(** X6. Of the loop alone, that is, as long as no other thread touches the
    socket: started with a socket that is neither [None] nor closed,
    [record_and_process_audio] never calls [socket.connect] and never
    closes or replaces the socket, whatever happens to the recordings, to
    the engine and to the sends. The reconnection of lines 212-217 needs a
    socket that is [None] or that something outside the loop has closed,
    as the [finally] block of [start_streaming] does at shutdown. *)
Theorem loop_alone_never_reconnects (envs : list iter_env) (st : state) :
  connection_lost st = false ->
  Forall (fun ev => is_connect ev = false /\ ev <> EvClose) (loop_trace envs st) /\
  socket (loop_state envs st) = socket st.
Proof.
  intros Hlost. split; [|now apply loop_socket].
  pose proof (connected_loop_never_reconnects envs st Hlost) as Hc.
  revert st Hlost Hc. induction envs as [|e envs IH]; intros st Hlost Hc.
  { constructor. }
  destruct (running st) eqn:Hr.
  2:{ unfold loop_trace. rewrite (loop_not_running _ _ Hr). constructor. }
  assert (Hpass : Forall (fun ev => is_connect ev = false /\ ev <> EvClose)
                         (iteration_trace e st)).
  { apply List.Forall_forall. intros ev Hin. split.
    - destruct (is_connect ev) eqn:Hk; [|reflexivity].
      destruct (pass_connect_only_after_fault e st ev Hin Hk) as [_ H].
      congruence.
    - intros ->. apply iteration_events in Hin.
      remember EvClose as ev eqn:Hev.
      destruct Hin; try discriminate. congruence. }
  unfold loop_trace in *. rewrite (loop_cons _ _ _ Hr) in *.
  destruct (snd (iteration e st)); cbn [fst snd] in *; [|exact Hpass].
  apply Forall_app_2; [exact Hpass|].
  assert (Hl : connection_lost (after_pass e st) = false).
  { pose proof (iteration_socket e st Hlost) as Hs.
    unfold connection_lost, after_pass in *.
    destruct (stop_requested e); simpl; rewrite Hs; exact Hlost. }
  apply IH; [exact Hl|]. now apply connected_loop_never_reconnects.
Qed.

Lemma loop_alone_never_reconnects_witness :
  Forall (fun ev => is_connect ev = false /\ ev <> EvClose)
    (loop_trace
       [pass_at 1 speech hello_world false false;
        pass_at 4 (SoxFault None) RunFault false false;
        pass_at 9 (SoxTimeoutExpired (Some 12)) TimeoutExpired false false]
       connected_streamer).
Proof.
  apply loop_alone_never_reconnects. reflexivity.
Defined.

Lemma pass_raises_only_when_lost (e : iter_env) (st : state) :
  snd (iteration e st) = Raise ->
  connection_lost st = true /\ exists w, sox e = SoxFault w.
Proof.
  destruct (sox e) as [rc w|w|w] eqn:Hsox.
  - rewrite (iteration_completed e st rc w Hsox). discriminate.
  - rewrite (iteration_timeout e st w Hsox). discriminate.
  - rewrite (iteration_fault e st w Hsox). cbn zeta.
    destruct (connection_lost st); [eauto|discriminate].
Qed.

(** X7. Started with a socket that is neither [None] nor closed, the loop
    never ends by an exception: no outcome of the recorder, of the engine
    or of the sends leaves [record_and_process_audio]. *)
Theorem connected_loop_never_dies (envs : list iter_env) (st : state) :
  connection_lost st = false ->
  loop_exit_of envs st <> Died.
Proof.
  revert st. induction envs as [|e envs IH]; intros st Hlost.
  - unfold loop_exit_of. simpl. destruct (running st); discriminate.
  - destruct (running st) eqn:Hr.
    2:{ unfold loop_exit_of. rewrite (loop_not_running _ _ Hr). discriminate. }
    unfold loop_exit_of. rewrite (loop_cons _ _ _ Hr).
    destruct (snd (iteration e st)) eqn:Hres; cbn [snd].
    + apply IH. pose proof (iteration_socket e st Hlost) as Hs.
      unfold connection_lost, after_pass in *.
      destruct (stop_requested e); simpl; rewrite Hs; exact Hlost.
    + apply pass_raises_only_when_lost in Hres as [Hres _]. congruence.
Qed.

Lemma connected_loop_never_dies_witness :
  loop_exit_of
    [pass_at 1 (SoxFault None) RunFault false false;
     pass_at 9 (SoxTimeoutExpired None) TimeoutExpired false false]
    connected_streamer <> Died.
Proof.
  apply connected_loop_never_dies. reflexivity.
Defined.

(** ** The segment counter *)

(** X8. The counter counts the recordings: after the loop it has grown by
    the number of sox calls made, one per pass started, whatever way each
    pass ended; hence no two passes of a run write to the same file. *)
Theorem counter_counts_recordings (envs : list iter_env) (st : state) :
  segment_counter (loop_state envs st)
  = (segment_counter st + length (captures (loop_trace envs st)))%nat /\
  List.NoDup (captures (loop_trace envs st)).
Proof.
  split.
  - revert st. induction envs as [|e envs IH]; intros st.
    + unfold loop_state, loop_trace. simpl. lia.
    + destruct (running st) eqn:Hr.
      2:{ unfold loop_state, loop_trace. rewrite (loop_not_running _ _ Hr).
          simpl. lia. }
      unfold loop_state, loop_trace. rewrite (loop_cons _ _ _ Hr).
      destruct (after_pass_fields e st) as (Hc & _).
      destruct (iteration_fields e st) as (Hc' & _). cbn zeta in Hc'.
      destruct (snd (iteration e st)); cbn [fst snd].
      * destruct (iteration_order e st None (loop_trace envs (after_pass e st)))
          as [-> _].
        fold (loop_state envs (after_pass e st)). rewrite IH, Hc. simpl. lia.
      * destruct (iteration_order e st None []) as [Hcap _].
        rewrite app_nil_r in Hcap. rewrite Hcap, Hc'. simpl. lia.
  - destruct (loop_order envs st None) as (n & -> & _). apply List.seq_NoDup.
Qed.

(** ** How much a pass does *)

Lemma count_events_app (p : event -> bool) (a b : list event) :
  count_events p (a ++ b) = (count_events p a + count_events p b)%nat.
Proof. unfold count_events. now rewrite List.filter_app, length_app. Qed.

Lemma count_events_none (p : event -> bool) (tr : list event) :
  Forall (fun ev => p ev = false) tr -> count_events p tr = 0%nat.
Proof.
  unfold count_events. induction 1 as [|ev tr Hev _ IH]; [reflexivity|].
  cbn [List.filter]. now rewrite Hev.
Qed.

Lemma process_segment_counts (seg : nat) (rc : Z) (e : iter_env) (st : state) :
  let tr := process_segment seg rc e st in
  (count_events is_content_send tr <= 1)%nat /\
  count_events is_heartbeat_send tr = 0%nat /\
  (count_events is_engine tr <= 1)%nat.
Proof.
  cbn zeta. rewrite process_segment_spec.
  destruct (rc =? 0); [|cbv; lia].
  destruct (files st !! seg) as [size|]; [|cbv; lia].
  destruct (8000 <? size); [|cbv; lia].
  rewrite !count_events_app, transcribe_audio_chunk_trace.
  assert (Ht : forall l, l = [] \/ l = [EvPkill] ->
               count_events is_content_send (EvEngine seg :: l) = 0%nat /\
               count_events is_heartbeat_send (EvEngine seg :: l) = 0%nat /\
               count_events is_engine (EvEngine seg :: l) = 1%nat).
  { intros l [->| ->]; repeat split. }
  destruct (Ht (match engine e with TimeoutExpired => [EvPkill] | _ => [] end))
    as (-> & -> & ->); [destruct (engine e); auto|].
  destruct (isMeaningfulText (transcription_of (engine e))); [|cbv; lia].
  destruct (send_transcription_spec (transcription_of (engine e)) true
              (send_time e) (send_ok e) st)
    as [[_ Hs]|(s & ts & _ & _ & Hs)]; rewrite Hs; cbn [fst]; [cbv; lia|].
  unfold count_events. cbn [List.filter is_content_send is_heartbeat_send is_engine].
  rewrite is_transcription_record. cbv. lia.
Qed.

Lemma heartbeat_counts (e : iter_env) (st : state) :
  let tr := snd (heartbeat e st) in
  count_events is_content_send tr = 0%nat /\
  (count_events is_heartbeat_send tr <= 1)%nat /\
  count_events is_engine tr = 0%nat.
Proof.
  cbn zeta.
  destruct (heartbeat_spec e st) as [[_ H]|(s & ts & _ & _ & _ & H)]; rewrite H;
    cbn [snd]; [cbv; lia|].
  unfold count_events. cbn [List.filter is_content_send is_heartbeat_send is_engine].
  rewrite is_transcription_keepalive. cbv. lia.
Qed.

Lemma unheard_counts (tr : list event) :
  Forall (fun ev => is_send ev = false /\ is_engine ev = false) tr ->
  count_events is_content_send tr = 0%nat /\
  count_events is_heartbeat_send tr = 0%nat /\
  count_events is_engine tr = 0%nat.
Proof.
  intros H. repeat split; apply count_events_none;
    (eapply List.Forall_impl; [|exact H]); intros [] [? ?]; simpl in *; congruence.
Qed.

Lemma cleanup_unheard (seg : nat) (st : state) :
  Forall (fun ev => is_send ev = false /\ is_engine ev = false)
         (snd (cleanup seg st)).
Proof. rewrite cleanup_trace. destruct (files st !! seg); repeat constructor. Qed.

Lemma connect_unheard (todo attempt : nat) (net : nat -> conn_outcome) (st : state) :
  Forall (fun ev => is_send ev = false /\ is_engine ev = false)
         (snd (fst (connect_attempts todo attempt net st))).
Proof.
  apply List.Forall_forall. intros ev H.
  apply connect_attempts_events in H as [[r ->]|[->| ->]]; split; reflexivity.
Qed.

Ltac single_counts :=
  repeat match goal with
         | |- context [count_events ?p [?ev]] =>
             change (count_events p [ev]) with 0%nat
         | |- context [count_events ?p []] =>
             change (count_events p []) with 0%nat
         end.

(** X9. A pass runs the engine at most once, hands at most one
    transcription record to the socket and at most one heartbeat, and so
    calls [socket.send] at most twice. *)
Theorem pass_sends_at_most_once (e : iter_env) (st : state) :
  let tr := iteration_trace e st in
  (count_events is_engine tr <= 1)%nat /\
  (count_events is_content_send tr <= 1)%nat /\
  (count_events is_heartbeat_send tr <= 1)%nat /\
  (count_events is_send tr <= 2)%nat.
Proof.
  cbn zeta.
  assert (Hsend : forall tr,
             count_events is_send tr
             = (count_events is_content_send tr + count_events is_heartbeat_send tr)%nat).
  { unfold count_events. induction tr as [|ev tr IH]; [reflexivity|].
    destruct ev; cbn [List.filter is_send is_content_send is_heartbeat_send];
      try exact IH.
    destruct (is_transcription data); simpl in *; lia. }
  rewrite Hsend.
  assert (H : (count_events is_engine (iteration_trace e st) <= 1)%nat /\
              (count_events is_content_send (iteration_trace e st) <= 1)%nat /\
              (count_events is_heartbeat_send (iteration_trace e st) <= 1)%nat);
    [|lia].
  unfold iteration_trace.
  destruct (sox e) as [rc w|w|w] eqn:Hsox.
  - rewrite (iteration_completed e st rc w Hsox). cbn [fst snd].
    change (EvSox (segment_counter st) w :: ?l) with ([EvSox (segment_counter st) w] ++ l).
    rewrite !count_events_app.
    destruct (process_segment_counts (segment_counter st) rc e (capture e st))
      as (Hp1 & Hp2 & Hp3).
    destruct (heartbeat_counts e (capture e st)) as (Hh1 & Hh2 & Hh3).
    destruct (unheard_counts _ (cleanup_unheard (segment_counter st)
                                  (fst (heartbeat e (capture e st)))))
      as (Hc1 & Hc2 & Hc3).
    cbn zeta in *. rewrite Hp2, Hh1, Hh3, Hc1, Hc2, Hc3. single_counts. lia.
  - rewrite (iteration_timeout e st w Hsox). cbn [fst snd].
    change (EvSox (segment_counter st) w :: ?l) with ([EvSox (segment_counter st) w] ++ l).
    rewrite !count_events_app.
    destruct (unheard_counts _ (cleanup_unheard (segment_counter st) (capture e st)))
      as (Hc1 & Hc2 & Hc3).
    rewrite Hc1, Hc2, Hc3. single_counts. lia.
  - rewrite (iteration_fault e st w Hsox). cbn zeta.
    destruct (unheard_counts _ (cleanup_unheard (segment_counter st) (capture e st)))
      as (Hc1 & Hc2 & Hc3).
    destruct (unheard_counts _ (connect_unheard max_retries 0 (reconnect e)
                 (fst (cleanup (segment_counter st) (capture e st)))))
      as (Hr1 & Hr2 & Hr3).
    fold (connect_to_nodejs (reconnect e)
            (fst (cleanup (segment_counter st) (capture e st)))) in Hr1, Hr2, Hr3.
    destruct (connection_lost st); cbn [fst snd];
      change (EvSox (segment_counter st) w :: ?l) with ([EvSox (segment_counter st) w] ++ l);
      rewrite !count_events_app, ?Hc1, ?Hc2, ?Hc3, ?Hr1, ?Hr2, ?Hr3;
      [destruct (snd (connect_to_nodejs _ _))|]; single_counts; lia.
Qed.

(** ** What a pass does send *)

(** X10. The gates let through what they should: when sox exits with 0 and
    leaves more than 8000 bytes, the engine is run on the file; when
    moreover the text it returns has more than 2 characters once trimmed
    and the streamer has a socket object, the text is handed to the socket
    as a final transcription, and the peer gets it exactly when the socket
    is connected and takes the data. *)
Theorem meaningful_segment_is_sent (e : iter_env) (st : state)
    (w : option Z) (size : Z) :
  sox e = SoxCompleted 0 w ->
  file_size e st = Some size ->
  8000 < size ->
  In (EvEngine (segment_counter st)) (iteration_trace e st) /\
  forall s : sock,
    2 < len (strip (transcription_of (engine e))) ->
    socket st = Some s ->
    exists ts,
      encode_utf8 (of_string (frepr (send_time e))) = Some ts /\
      In (EvSend (transcription_record (transcription_of (engine e)) ts true)
                 (sock_send s (send_ok e)))
         (iteration_trace e st).
Proof.
  intros Hsox Hsize Hgt.
  unfold iteration_trace. rewrite (iteration_completed e st 0 w Hsox).
  cbn [fst snd]. rewrite process_segment_spec.
  unfold file_size in Hsize. rewrite Hsize. cbn [Z.eqb].
  apply Z.ltb_lt in Hgt. rewrite Hgt.
  rewrite transcribe_audio_chunk_trace.
  split.
  { right. destruct (isMeaningfulText (transcription_of (engine e)));
      rewrite ?in_app_iff; cbn [In]; auto. }
  intros s Hlen Hs.
  apply isMeaningfulText_iff in Hlen. rewrite Hlen.
  destruct (capture_fields e st) as (Hsock & _).
  destruct (send_transcription_spec (transcription_of (engine e)) true
              (send_time e) (send_ok e) (capture e st))
    as [[Hn _]|(s' & ts & Hs' & Hts & Hsend)]; [congruence|].
  assert (s' = s) as -> by congruence. rewrite Hsend. cbn [fst].
  exists ts. split; [exact Hts|].
  right. rewrite !in_app_iff. left. right. now left.
Qed.

Lemma meaningful_segment_is_sent_witness :
  In (EvEngine 0)
     (iteration_trace (pass_at 1 speech hello_world true true) connected_streamer) /\
  In (EvEngine 0)
     (iteration_trace (pass_at 1 speech TimeoutExpired true true) connected_streamer) /\
  exists ts,
    encode_utf8 (of_string "1700000001.5") = Some ts /\
    In (EvSend (transcription_record (of_string "hello world") ts true) true)
       (iteration_trace (pass_at 1 speech hello_world true true) connected_streamer).
Proof.
  destruct (meaningful_segment_is_sent
              (pass_at 1 speech hello_world true true) connected_streamer
              (Some 64044) 64044) as [H1 H2];
    try reflexivity.
  destruct (meaningful_segment_is_sent
              (pass_at 1 speech TimeoutExpired true true) connected_streamer
              (Some 64044) 64044) as [H3 _];
    try reflexivity.
  split; [exact H1|]. split; [exact H3|].
  apply (H2 Connected); reflexivity.
Defined.

(** ** The cadence of the heartbeat *)

(** X11. No heartbeat before its time: in a pass that reads a time at most
    30 seconds after the last heartbeat, nothing but a transcription can be
    handed to the socket, and the time of the last heartbeat stays. *)
Theorem no_heartbeat_within_30_seconds (e : iter_env) (st : state) :
  (fval (current_time e) - fval (last_heartbeat st) <= 30)%Q ->
  count_events is_heartbeat_send (iteration_trace e st) = 0%nat /\
  last_heartbeat (iteration_state e st) = last_heartbeat st.
Proof.
  intros Hle.
  assert (Hdue : heartbeat_due (current_time e) (last_heartbeat st) = false).
  { unfold heartbeat_due. apply negb_false_iff. now apply Qle_bool_iff. }
  split.
  - apply count_events_none, List.Forall_forall. intros ev Hin.
    destruct ev; try reflexivity. simpl.
    destruct (is_transcription data) eqn:Hk; [reflexivity|].
    apply iteration_events in Hin.
    apply pass_event_heartbeat in Hin as (_ & _ & _ & Hd & _); [|exact Hk].
    congruence.
  - rewrite iteration_last_heartbeat. destruct (sox e); try reflexivity.
    destruct (capture_fields e st) as (_ & _ & _ & Hl & _).
    unfold heartbeat. rewrite Hl, Hdue. exact Hl.
Qed.

Lemma no_heartbeat_within_30_seconds_witness :
  count_events is_heartbeat_send
    (iteration_trace (pass_at 30 speech hello_world true true) connected_streamer)
  = 0%nat.
Proof.
  apply (no_heartbeat_within_30_seconds
           (pass_at 30 speech hello_world true true) connected_streamer).
  vm_compute. discriminate.
Defined.

(** ** Start-up failures *)

(** X13. [main] removes the temporary directory that [__init__] made
    exactly when the first connect returned [True] and both start-up tests
    passed. When the connect fails the directory stays; when the connect
    succeeds and a start-up test fails, [start_streaming] returns before
    its [try]: the directory stays and the socket is left connected,
    never closed, and nothing more is logged. *)
Theorem temp_dir_removed_iff_started (w : run_env) :
  let c := connect_to_nodejs (first_connect w) (init (start_time w)) in
  let final := fst (fst (main w)) in
  (temp_dir_exists final = false
   <-> snd c = Return true /\ sox_ready w = true /\ whisper_ready w = true) /\
  (snd c = Return true -> sox_ready w && whisper_ready w = false ->
   final = fst (fst c) /\ socket final = Some Connected /\
   main_trace w = snd (fst c)).
Proof.
  cbn zeta. unfold main_trace, main.
  pose proof (connect_attempts_fields max_retries 0 (first_connect w)
                (init (start_time w))) as (_ & _ & _ & Ht & _).
  pose proof (connect_attempts_socket max_retries 0 (first_connect w)
                (init (start_time w))) as Hs.
  cbn zeta in *.
  fold (connect_to_nodejs (first_connect w) (init (start_time w))) in *.
  destruct (connect_to_nodejs (first_connect w) (init (start_time w)))
    as [[st tr] r]. cbn [fst snd] in *. simpl in Ht.
  destruct r as [[|]|]; cbn [fst snd].
  - destruct (sox_ready w) eqn:Hsr; [destruct (whisper_ready w) eqn:Hwr|].
    + rewrite start_streaming_ready. cbn [fst snd]. split.
      * split; [auto|]. intros _. apply finally_cleanup_spec.
      * intros _ H. discriminate.
    + simpl. rewrite app_nil_r. split; [|auto].
      split; [congruence|]. intros (_ & _ & H). discriminate.
    + simpl. rewrite app_nil_r. split; [|auto].
      split; [congruence|]. intros (_ & H & _). discriminate.
  - split; [|intros H; discriminate].
    split; [congruence|]. intros (H & _). discriminate.
  - split; [|intros H; discriminate].
    split; [congruence|]. intros (H & _). discriminate.
Qed.

(** ** The callbacks of the two other streamers *)

Lemma record_final_differs (text : pystr) (ts : list N) :
  transcription_record text ts true <> transcription_record text ts false.
Proof.
  unfold transcription_record. intros H.
  repeat apply app_inv_head in H. discriminate.
Qed.

(** X14. The callbacks of [SimpleRealtimeSTT]. A text that is empty once
    stripped is dropped by both. Otherwise, with a socket object, each
    hands exactly one record to the socket, whose text is the stripped
    text: the live update with [isFinal] false, the stabilized text with
    [isFinal] true, so that the two records of one text always differ. *)
Theorem simple_callbacks (text : pystr) (now : pyfloat) (ok : bool) (s : sock) :
  let live := Simple.on_realtime_transcription_update text now ok (Some s) in
  let final := Simple.on_realtime_transcription_stabilized text now ok (Some s) in
  match strip text with
  | [] => live = [] /\ final = []
  | _ :: _ =>
      exists ts,
        encode_utf8 (of_string (frepr now)) = Some ts /\
        live = [EvSend (transcription_record (strip text) ts false) (sock_send s ok)] /\
        final = [EvSend (transcription_record (strip text) ts true) (sock_send s ok)] /\
        live <> final
  end.
Proof.
  cbn zeta.
  unfold Simple.on_realtime_transcription_update,
    Simple.on_realtime_transcription_stabilized, Simple.send_transcription.
  destruct (strip text) as [|c t] eqn:Hs; [simpl; auto|]. cbn [truthy].
  destruct (wire_transcription (c :: t) now false) as (ts & Hts & Hw1).
  destruct (wire_transcription (c :: t) now true) as (ts' & Hts' & Hw2).
  assert (ts' = ts) as -> by congruence.
  rewrite Hw1, Hw2. cbn [fst]. exists ts. repeat split; auto.
  intros H. apply (record_final_differs (c :: t) ts). congruence.
Qed.

(** X15. The callbacks of [STTStreamer] mark a stabilized text by the
    prefix [FINAL:] inside the text itself. The mark is not reserved: the
    stabilized text [t] and the live update whose text is [FINAL:] followed
    by [t] stripped hand the same bytes to the socket, so the receiver
    cannot tell one from the other. *)
Theorem final_prefix_is_ambiguous (text : pystr) (now : pyfloat) (ok : bool)
    (so : option sock) :
  truthy (strip text) = true ->
  Realtime.on_realtime_transcription_stabilized text now ok so
  = Realtime.on_realtime_transcription_update
      (of_string "FINAL:" ++ strip text) now ok so.
Proof.
  intros Ht.
  unfold Realtime.on_realtime_transcription_stabilized,
    Realtime.on_realtime_transcription_update.
  rewrite Ht.
  destruct (strip_after_prefix (of_string "INAL:") text 70 eq_refl) as [H|H].
  - change (70%N :: of_string "INAL:" ++ strip text)
      with (of_string "FINAL:" ++ strip text) in H.
    rewrite H. reflexivity.
  - rewrite H in Ht. discriminate.
Qed.

Lemma final_prefix_is_ambiguous_witness :
  Realtime.on_realtime_transcription_stabilized
    (of_string " stop ") (t_after 1) true (Some Connected)
  = Realtime.on_realtime_transcription_update
      (of_string "FINAL:" ++ strip (of_string " stop ")) (t_after 1) true
      (Some Connected).
Proof.
  apply final_prefix_is_ambiguous. reflexivity.
Defined.

(** ** The escaping loses nothing *)

Lemma unhex_hex_digit (x : N) : (x < 16)%N -> unhex (hex_digit x) = Some x.
Proof.
  intros H. unfold hex_digit, unhex.
  destruct (N.ltb_spec x 10).
  - replace ((48 <=? 48 + x) && (48 + x <=? 57))%N with true.
    + f_equal. lia.
    + symmetry. apply andb_true_iff. split; apply N.leb_le; lia.
  - replace ((48 <=? 87 + x) && (87 + x <=? 57))%N with false.
    + replace ((97 <=? 87 + x) && (87 + x <=? 102))%N with true; [f_equal; lia|].
      symmetry. apply andb_true_iff. split; apply N.leb_le; lia.
    + symmetry. apply andb_false_iff. right. apply N.leb_gt. lia.
Qed.

Lemma nibble_lt (x : N) : (N.land x 15 < 16)%N.
Proof.
  change 15%N with (N.ones 4). rewrite N.land_ones. apply N.mod_lt. discriminate.
Qed.

Lemma nibbles_sum (n : N) :
  (n < 65536)%N ->
  (N.land (N.shiftr n 12) 15 * 4096 + N.land (N.shiftr n 8) 15 * 256
   + N.land (N.shiftr n 4) 15 * 16 + N.land n 15 = n)%N.
Proof.
  intros H.
  change 15%N with (N.ones 4). rewrite !N.land_ones, !N.shiftr_div_pow2.
  change (2 ^ 12)%N with 4096%N. change (2 ^ 8)%N with 256%N.
  change (2 ^ 4)%N with 16%N.
  zify. Z.to_euclidean_division_equations. lia.
Qed.

(** Four hexadecimal digits read back give the number written. *)
Lemma unescape_backslash_u (n : N) (r : pystr) :
  (n < 65536)%N ->
  unescape (backslash_u n ++ r)
  = if ((55296 <=? n) && (n <=? 56319))%N then
      match r with
      | b1 :: u1 :: a2 :: b2 :: c2 :: d2 :: r2 =>
          if ((b1 =? 92) && (u1 =? 117))%N then
            match unhex4 a2 b2 c2 d2 with
            | Some lo =>
                if ((56320 <=? lo) && (lo <=? 57343))%N then
                  option_map
                    (cons (65536 + (n - 55296) * 1024 + (lo - 56320))%N)
                    (unescape r2)
                else None
            | None => None
            end
          else None
      | _ => None
      end
    else option_map (cons n) (unescape r).
Proof.
  intros H. unfold backslash_u, hex4. cbn [app unescape].
  change (negb (92 =? 92)%N) with false. change (negb (117 =? 117)%N) with false.
  cbv iota.
  unfold unhex4. rewrite !unhex_hex_digit by apply nibble_lt.
  rewrite (nibbles_sum n H). reflexivity.
Qed.

Lemma lor_low_bits (h x : N) :
  N.land h 1023 = 0%N -> (x < 1024)%N -> N.lor h x = (h + x)%N.
Proof.
  intros Hh H.
  assert (Hl : N.land h x = 0%N).
  { rewrite <- (N.mod_small x 1024) by exact H.
    change 1024%N with (2 ^ 10)%N. rewrite <- N.land_ones.
    rewrite N.land_assoc, (N.land_comm h x), <- N.land_assoc.
    change (N.ones 10) with 1023%N. rewrite Hh. apply N.land_0_r. }
  rewrite <- N.lxor_lor by exact Hl. symmetry. now apply N.add_nocarry_lxor.
Qed.

(** One character written and read back. *)
Lemma unescape_escape_char (c : N) (r : pystr) :
  scalar c = true ->
  unescape (escape_char c ++ r) = option_map (cons c) (unescape r).
Proof.
  unfold scalar. intros Hsc. apply andb_true_iff in Hsc as [Hlt Hsur].
  apply N.ltb_lt in Hlt. apply negb_true_iff in Hsur.
  unfold escape_char.
  destruct (N.eqb_spec c 34) as [->|H34]; [reflexivity|].
  destruct (N.eqb_spec c 92) as [->|H92]; [reflexivity|].
  destruct (N.eqb_spec c 10) as [->|H10]; [reflexivity|].
  destruct (N.eqb_spec c 13) as [->|H13]; [reflexivity|].
  destruct (N.eqb_spec c 9) as [->|H9]; [reflexivity|].
  destruct (N.eqb_spec c 8) as [->|H8]; [reflexivity|].
  destruct (N.eqb_spec c 12) as [->|H12]; [reflexivity|].
  destruct ((32 <=? c) && (c <=? 126))%N eqn:Hp.
  - cbn [app unescape]. apply N.eqb_neq in H92. now rewrite H92.
  - destruct (N.ltb_spec c 65536) as [Hb|Hb].
    + rewrite (unescape_backslash_u c r Hb).
      destruct ((55296 <=? c) && (c <=? 56319))%N eqn:Hhi; [|reflexivity].
      exfalso. apply andb_true_iff in Hhi as [H1 H2].
      apply N.leb_le in H1, H2.
      apply andb_false_iff in Hsur as [Hs|Hs]; apply N.leb_gt in Hs; lia.
    + set (n := (c - 65536)%N).
      assert (Hn : (n < 1048576)%N) by (unfold n; lia).
      assert (Hx : (N.land (N.shiftr n 10) 1023 = n / 1024)%N).
      { change 1023%N with (N.ones 10). rewrite N.land_ones, N.shiftr_div_pow2.
        change (2 ^ 10)%N with 1024%N. apply N.mod_small.
        zify. Z.to_euclidean_division_equations. lia. }
      assert (Hy : (N.land n 1023 = n mod 1024)%N).
      { change 1023%N with (N.ones 10). now rewrite N.land_ones. }
      assert (Hxl : (n / 1024 < 1024)%N)
        by (zify; Z.to_euclidean_division_equations; lia).
      assert (Hyl : (n mod 1024 < 1024)%N) by (apply N.mod_lt; discriminate).
      rewrite Hx, Hy.
      rewrite (lor_low_bits 55296 _ eq_refl Hxl), (lor_low_bits 56320 _ eq_refl Hyl).
      rewrite <- app_assoc.
      rewrite (unescape_backslash_u (55296 + n / 1024)) by lia.
      replace ((55296 <=? 55296 + n / 1024) && (55296 + n / 1024 <=? 56319))%N
        with true
        by (symmetry; apply andb_true_iff; split; apply N.leb_le; lia).
      unfold backslash_u at 1, hex4. cbn [app].
      change ((92 =? 92) && (117 =? 117))%N with true. cbv iota.
      unfold unhex4. rewrite !unhex_hex_digit by apply nibble_lt.
      rewrite (nibbles_sum (56320 + n mod 1024)) by lia.
      replace ((56320 <=? 56320 + n mod 1024) && (56320 + n mod 1024 <=? 57343))%N
        with true
        by (symmetry; apply andb_true_iff; split; apply N.leb_le; lia).
      replace (65536 + (55296 + n / 1024 - 55296) * 1024
               + (56320 + n mod 1024 - 56320))%N with c; [reflexivity|].
      unfold n in *. zify. Z.to_euclidean_division_equations. lia.
Qed.

Lemma unescape_escape (s : pystr) :
  Forall (fun c => scalar c = true) s ->
  unescape (flat_map escape_char s) = Some s.
Proof.
  induction 1 as [|c s Hc _ IH]; [reflexivity|].
  cbn [flat_map]. now rewrite (unescape_escape_char c _ Hc), IH.
Qed.

(** X16. Nothing of a transcription is lost on the wire: two texts made of
    characters (no lone surrogate) that give the same bytes, for the same
    timestamp and the same [is_final], are the same text. *)
Theorem wire_text_injective (t1 t2 : pystr) (now : pyfloat) (f : bool) :
  Forall (fun c => scalar c = true) t1 ->
  Forall (fun c => scalar c = true) t2 ->
  wire (transcription_message t1 now f) = wire (transcription_message t2 now f) ->
  t1 = t2.
Proof.
  intros H1 H2 Hw.
  destruct (wire_transcription t1 now f) as (ts & Hts & Hw1).
  destruct (wire_transcription t2 now f) as (ts' & Hts' & Hw2).
  assert (ts' = ts) as -> by congruence.
  assert (Hr : transcription_record t1 ts f = transcription_record t2 ts f)
    by congruence.
  clear Hw. rename Hr into Hw.
  unfold transcription_record in Hw. apply app_inv_head in Hw.
  rewrite !app_assoc in Hw. do 3 apply app_inv_tail in Hw.
  unfold encode_basestring_ascii in Hw. apply app_inv_head in Hw.
  apply app_inv_tail in Hw.
  apply (f_equal unescape) in Hw.
  rewrite (unescape_escape t1 H1), (unescape_escape t2 H2) in Hw.
  congruence.
Qed.

Lemma wire_text_injective_witness :
  of_string "hello" = of_string "hello".
Proof.
  apply (wire_text_injective (of_string "hello") (of_string "hello")
           (t_after 1) true);
    [repeat constructor..|reflexivity].
Defined.

(** The condition on surrogates is needed: a Python [str] can hold the two
    halves of a pair as two code points, and they are written like the
    character they would make. *)
Example lone_surrogates_collide :
  encode_basestring_ascii [55296%N; 56320%N] = encode_basestring_ascii [65536%N].
Proof. reflexivity. Qed.

(** ** The reconnection of a pass *)

(** What a connect returns is decided by the first attempt that is not
    refused. *)
Lemma connect_first_outcome (net : nat -> conn_outcome) (st : state) :
  let c := connect_to_nodejs net st in
  (snd c = Return true <-> exists k, first_outcome net k ConnOk) /\
  (snd c = Raise <-> exists k, first_outcome net k ConnFault) /\
  (snd c = Return false <-> forall i, (i < max_retries)%nat -> net i = ConnRefused) /\
  (1 <= count_events is_connect (snd (fst c)) <= max_retries)%nat.
Proof.
  cbn zeta. unfold connect_to_nodejs, first_outcome.
  destruct (connect_attempts_spec max_retries 0 net st) as (k & Hk & Href & Hcases).
  cbn zeta in Hcases. simpl Nat.add in *.
  assert (Hcount : forall j, count_events is_connect (refusals j) = j).
  { unfold count_events. apply refusals_connects. }
  assert (Huniq : forall j o, (j < max_retries)%nat -> net j = o ->
                   (forall i, (i < j)%nat -> net i = ConnRefused) ->
                   o <> ConnRefused ->
                   (k < max_retries)%nat /\ j = k).
  { intros j o Hj Ho Hbefore Hne.
    destruct (Nat.lt_trichotomy j k) as [Hlt|[->|Hgt]].
    - rewrite (Href j Hlt) in Ho. congruence.
    - auto.
    - exfalso.
      destruct Hcases as [(-> & _)|[(_ & Hn & _)|(_ & Hn & _)]];
        [lia|rewrite (Hbefore k Hgt) in Hn; discriminate..]. }
  assert (Hone : forall o, count_events is_connect [EvConnect o] = 1%nat)
    by reflexivity.
  assert (Hbound : (1 <= count_events is_connect
                          (snd (fst (connect_attempts max_retries 0 net st)))
                    <= max_retries)%nat).
  { destruct Hcases as [(-> & _ & ->)|[(Hlt & _ & _ & -> & _)|(Hlt & _ & _ & ->)]];
      rewrite ?count_events_app, Hcount, ?Hone; unfold max_retries in *; lia. }
  split; [|split; [|split; [|exact Hbound]]].
  - split.
    + intros Hres.
      destruct Hcases as [(_ & Hr & _)|[(Hlt & Hn & _)|(_ & _ & Hr & _)]];
        [congruence| |congruence].
      exists k. auto.
    + intros (j & Hj & Ho & Hb).
      destruct (Huniq j ConnOk Hj Ho Hb) as [Hlt ->]; [discriminate|].
      destruct Hcases as [(-> & _)|[(_ & _ & Hr & _)|(_ & Hn & _)]];
        [lia|exact Hr|congruence].
  - split.
    + intros Hres.
      destruct Hcases as [(_ & Hr & _)|[(_ & _ & Hr & _)|(Hlt & Hn & _)]];
        [congruence|congruence|].
      exists k. auto.
    + intros (j & Hj & Ho & Hb).
      destruct (Huniq j ConnFault Hj Ho Hb) as [Hlt ->]; [discriminate|].
      destruct Hcases as [(-> & _)|[(_ & Hn & _)|(_ & _ & Hr & _)]];
        [lia|congruence|exact Hr].
  - split.
    + intros Hres.
      destruct Hcases as [(-> & _)|[(_ & _ & Hr & _)|(_ & _ & Hr & _)]];
        [exact Href|congruence|congruence].
    + intros Hall.
      destruct Hcases as [(_ & Hr & _)|[(Hlt & Hn & _)|(Hlt & Hn & _)]];
        [exact Hr|rewrite (Hall k Hlt) in Hn; discriminate..].
Qed.

(** X17. The reconnection of lines 205-219, when it is reached: in a pass
    whose recording call raises while the socket is [None] or closed, the
    streamer makes between 1 and 5 connection attempts. The first attempt
    that is not refused decides: if it succeeds the pass leaves a
    connected socket; if it raises, the exception leaves the loop; and if
    all 5 are refused the pass ends normally with the socket closed, so
    that the next such error tries again. *)
Theorem lost_connection_is_retried (e : iter_env) (st : state) (w : option Z) :
  sox e = SoxFault w ->
  connection_lost st = true ->
  (1 <= count_events is_connect (iteration_trace e st) <= 5)%nat /\
  (socket (iteration_state e st) = Some Connected
   <-> exists k, first_outcome (reconnect e) k ConnOk) /\
  (snd (iteration e st) = Raise
   <-> exists k, first_outcome (reconnect e) k ConnFault) /\
  (snd (iteration e st) = Return tt /\ connection_lost (iteration_state e st) = true
   <-> forall i, (i < 5)%nat -> reconnect e i = ConnRefused).
Proof.
  intros Hsox Hlost. unfold iteration_trace, iteration_state.
  rewrite (iteration_fault e st w Hsox). cbn zeta. rewrite Hlost. cbn [fst snd].
  set (st2 := fst (cleanup (segment_counter st) (capture e st))).
  destruct (connect_first_outcome (reconnect e) st2) as (Hok & Hfault & Hall & Hcount).
  pose proof (connect_attempts_socket max_retries 0 (reconnect e) st2) as Hs.
  cbn zeta in *. fold (connect_to_nodejs (reconnect e) st2) in Hs.
  change max_retries with 5%nat in Hall, Hcount.
  destruct (connect_to_nodejs (reconnect e) st2) as [[st3 tr] r].
  cbn [fst snd] in *.
  split.
  { change (EvSox (segment_counter st) w :: ?l)
      with ([EvSox (segment_counter st) w] ++ l).
    rewrite !count_events_app.
    assert (Hc : count_events is_connect (snd (cleanup (segment_counter st) (capture e st)))
                 = 0%nat).
    { rewrite cleanup_trace. now destruct (files (capture e st) !! segment_counter st). }
    rewrite Hc. change (count_events is_connect [EvSox (segment_counter st) w]) with 0%nat.
    destruct r; single_counts; lia. }
  destruct r as [[|]|].
  - split; [|split].
    + rewrite <- Hok. split; auto.
    + rewrite <- Hfault. split; discriminate.
    + rewrite <- Hall. split; [intros [_ H]|discriminate].
      unfold connection_lost in H. rewrite Hs in H. discriminate.
  - destruct Hs as [Hs|Hs]; [discriminate|].
    split; [|split].
    + rewrite <- Hok, Hs. split; discriminate.
    + rewrite <- Hfault. split; discriminate.
    + rewrite <- Hall. unfold connection_lost. rewrite Hs. split; auto.
  - split; [|split].
    + rewrite <- Hok, Hs. split; discriminate.
    + rewrite <- Hfault. split; auto.
    + rewrite <- Hall. split; [intros [H _]|]; discriminate.
Qed.

Lemma lost_connection_is_retried_witness :
  let e := IterEnv (SoxFault None) RunFault (t_after 1) true (t_after 1) true
                   (fun k => if (k <? 2)%nat then ConnRefused else ConnOk) false in
  let st := set_socket (Some Closed) connected_streamer in
  (1 <= count_events is_connect (iteration_trace e st) <= 5)%nat.
Proof.
  cbn zeta.
  destruct (lost_connection_is_retried
              (IterEnv (SoxFault None) RunFault (t_after 1) true (t_after 1) true
                       (fun k => if (k <? 2)%nat then ConnRefused else ConnOk) false)
              (set_socket (Some Closed) connected_streamer) None eq_refl eq_refl)
    as [H _].
  exact H.
Defined.

(** ** When [pkill] is run *)

(** X18. [pkill -f faster_whisper] is run in a pass exactly when the engine
    was run in it (sox exited with 0 and left more than 8000 bytes) and
    the 8-second timeout of the call expired; never when the alarm of the
    child fired, when the engine failed, or when nothing was transcribed. *)
Theorem pkill_iff_outer_timeout (e : iter_env) (st : state) :
  In EvPkill (iteration_trace e st)
  <-> (exists w size,
          sox e = SoxCompleted 0 w /\ file_size e st = Some size /\ 8000 < size)
      /\ engine e = TimeoutExpired.
Proof.
  split.
  - intros Hin. apply iteration_events in Hin.
    remember EvPkill as ev eqn:Hev.
    destruct Hin; try discriminate. eauto 6.
  - intros [(w & size & Hsox & Hsize & Hgt) Ht].
    unfold iteration_trace. rewrite (iteration_completed e st 0 w Hsox).
    cbn [fst snd]. rewrite process_segment_spec.
    unfold file_size in Hsize. rewrite Hsize. cbn [Z.eqb].
    apply Z.ltb_lt in Hgt. rewrite Hgt, transcribe_audio_chunk_trace, Ht.
    right. rewrite !in_app_iff. left. left. right. now left.
Qed.
